(** * Panorama search and reprojection (GoogleVR3/GoogleVR1.py)

    A shallow embedding of the geospatial helpers, the Mapillary candidate
    search, the panorama cache and the equirectangular reprojection of
    [GLYTCH'25/GoogleMapDB/GoogleVR3/GoogleVR1.py], with the properties the
    specification states about them.  The separation of candidates that
    [PipeLine3.0/server_fastapi.py] requests from [GoogleVR4.core] is
    modelled from the specification, that module not being among the
    sources.

    Python floats are idealised as real numbers: [math.sin], [math.cos],
    [math.sqrt], [math.atan2] and the NumPy counterparts are the functions of
    the real-number library, and no rounding is modelled.  Python exceptions
    are values of [exn], carried by the [result] monad. *)

From Stdlib Require Import Reals Lra Lia ZArith List Strings.Byte Sorting.Sorted.
From stdpp Require Import base option list strings pretty gmap.

Local Open Scope R_scope.

(** ** Exceptions and results *)

Inductive exn : Type :=
| ValueError          (* math domain error *)
| ZeroDivisionError   (* float division by zero *)
| KeyError            (* a missing dictionary key *)
| RequestException    (* requests: connection error, timeout, bad status *)
| CvError             (* cv2.error: a failed OpenCV assertion *)
| InvalidInput.       (* the error kind the specification names *)

Inductive result (A : Type) : Type :=
| Ok (a : A)
| Raise (e : exn).
Arguments Ok {A} a.
Arguments Raise {A} e.

#[global] Instance result_ret : MRet result := fun A a => Ok a.
#[global] Instance result_bind : MBind result := fun A B f m =>
  match m with
  | Ok a => f a
  | Raise e => Raise e
  end.

(** ** The [math] module on idealised floats *)

Module math.

Definition radians (deg : R) : R := deg * (PI / 180).

(** [math.sqrt] raises [ValueError] on a negative argument. *)
Definition sqrt (x : R) : result R :=
  if Rlt_dec x 0 then Raise ValueError else Ok (R_sqrt.sqrt x).

(** [math.atan2 y x]: the angle of the point [(x, y)], in [(-PI, PI]]. *)
Definition atan2 (y x : R) : R :=
  if Rlt_dec 0 x then atan (y / x)
  else if Rlt_dec x 0 then
         (if Rle_dec 0 y then atan (y / x) + PI else atan (y / x) - PI)
  else if Rlt_dec 0 y then PI / 2
  else if Rlt_dec y 0 then - (PI / 2)
  else 0.

(** Float division: [x / y] raises [ZeroDivisionError] when [y] is zero. *)
Definition div (x y : R) : result R :=
  if Req_dec_T y 0 then Raise ZeroDivisionError else Ok (x / y).

End math.

(** ** Geo helpers *)

(** The haversine term [a] of [haversine_distance_m]. *)
Definition haversine_a (lat1 lon1 lat2 lon2 : R) : R :=
  let phi1 := math.radians lat1 in
  let phi2 := math.radians lat2 in
  let dphi := math.radians (lat2 - lat1) in
  let dlambda := math.radians (lon2 - lon1) in
  sin (dphi / 2) ^ 2 + cos phi1 * cos phi2 * sin (dlambda / 2) ^ 2.

Definition haversine_distance_m (lat1 lon1 lat2 lon2 : R) : result R :=
  let R_ := 6371000 in
  let a := haversine_a lat1 lon1 lat2 lon2 in
  sa ← math.sqrt a;
  sb ← math.sqrt (1 - a);
  let c := 2 * math.atan2 sa sb in
  Ok (R_ * c).

Record BoundingBox : Type := mkBBox {
  min_lat : R;
  max_lat : R;
  min_lon : R;
  max_lon : R
}.

Definition bbox_from_point (lat lon radius_m : R) : result BoundingBox :=
  delta_lat ← math.div radius_m 111320;
  let lat_rad := math.radians lat in
  let meters_per_deg_lon := 111320 * Rmax (cos lat_rad) (1 / 1000000) in
  delta_lon ← math.div radius_m meters_per_deg_lon;
  Ok {| min_lat := lat - delta_lat;
        max_lat := lat + delta_lat;
        min_lon := lon - delta_lon;
        max_lon := lon + delta_lon |}.

(** The half-height and half-width of the box, in degrees. *)
Definition delta_lat_of (radius_m : R) : R := radius_m / 111320.

Definition delta_lon_of (lat radius_m : R) : R :=
  radius_m / (111320 * Rmax (cos (math.radians lat)) (1 / 1000000)).

(** A point lies in a box when both coordinates are within its bounds. *)
Definition in_bbox (b : BoundingBox) (lat lon : R) : Prop :=
  min_lat b <= lat <= max_lat b /\ min_lon b <= lon <= max_lon b.

(** The closed form of the distance, without the domain checks. *)
Definition haversine_m (lat1 lon1 lat2 lon2 : R) : R :=
  let a := haversine_a lat1 lon1 lat2 lon2 in
  6371000 * (2 * math.atan2 (R_sqrt.sqrt a) (R_sqrt.sqrt (1 - a))).

(** ** Mapillary candidate search *)

(** [Rlt], [Rle] and equality on reals are decidable propositions. *)
#[global] Instance Rlt_decision : RelDecision Rlt := Rlt_dec.
#[global] Instance Rle_decision : RelDecision Rle := Rle_dec.
#[global] Instance Req_decision : EqDecision R := Req_dec_T.

(** One element of the ["data"] array of the images endpoint.  [raw_id] is
    [None] when the object has no ["id"] key (an ["id"] of [null] is not
    modelled); for the other fields, which the code reads with [get],
    [None] is a missing key or [null]; [raw_coordinates] is
    [geometry.coordinates], longitude first. *)
Record raw_image : Type := mkRaw {
  raw_id : option string;
  raw_coordinates : option (list R);
  raw_is_pano : option bool;
  raw_thumb_2048_url : option string
}.

(** The dictionary built for each image: keys [id], [lat], [lon],
    [distance_m], [viewer_url], [is_pano], [thumb_2048_url]. *)
Record candidate : Type := mkCandidate {
  cand_id : string;
  cand_lat : R;
  cand_lon : R;
  distance_m : R;
  viewer_url : string;
  is_pano : bool;
  thumb_2048_url : option string
}.

(** The remote catalog: [requests.get] on the images endpoint restricted to
    a box, [raise_for_status] and [resp.json().get("data")]; [None] is a
    response without a ["data"] entry. *)
Definition RecordSource : Type := BoundingBox -> result (option (list raw_image)).

(** [img["id"]]: a missing key raises [KeyError]. *)
Definition getitem_id (img : raw_image) : result string :=
  match raw_id img with
  | Some i => Ok i
  | None => Raise KeyError
  end.

(** [coords] when it passes [not coords or len(coords) < 2], split into
    [coords[0], coords[1]]. *)
Definition usable_coords (coords : option (list R)) : option (R * R) :=
  match coords with
  | Some (c0 :: c1 :: _) => Some (c0, c1)
  | _ => None
  end.

(** A record the loop keeps has an ["id"]. *)
Definition id_if_usable (img : raw_image) : Prop :=
  is_Some (usable_coords (raw_coordinates img)) -> is_Some (raw_id img).

Definition viewer_url_of (i : string) : string :=
  "https://www.mapillary.com/app/?focus=photo&pKey=" +:+ i.

(** The [for img in images] loop of [find_nearest_vr_images]. *)
Fixpoint collect_results (lat lon : R) (images : list raw_image)
  : result (list candidate) :=
  match images with
  | [] => Ok []
  | img :: images' =>
      match usable_coords (raw_coordinates img) with
      | None => collect_results lat lon images'
      | Some (img_lon, img_lat) =>
          dist ← haversine_distance_m lat lon img_lat img_lon;
          i ← getitem_id img;
          rest ← collect_results lat lon images';
          Ok ({| cand_id := i;
                 cand_lat := img_lat;
                 cand_lon := img_lon;
                 distance_m := dist;
                 viewer_url := viewer_url_of i;
                 is_pano := default false (raw_is_pano img);
                 thumb_2048_url := raw_thumb_2048_url img |} :: rest)
      end
  end.

(** [list.sort(key=...)] is a stable sort: elements with equal keys keep
    their relative order.  [insert_by_key] puts [x] in front of the first
    element whose key is not smaller. *)
Fixpoint insert_by_key {A} (key : A -> R) (x : A) (l : list A) : list A :=
  match l with
  | [] => [x]
  | y :: l' =>
      if decide (key x <= key y) then x :: y :: l'
      else y :: insert_by_key key x l'
  end.

Definition sort_by_key {A} (key : A -> R) (l : list A) : list A :=
  foldr (insert_by_key key) [] l.

(** The order the sort establishes: keys do not decrease. *)
Definition key_le {A} (key : A -> R) (a b : A) : Prop := key a <= key b.

(** The slice [l[:n]]: a negative [n] counts from the end. *)
Definition slice_to {A} (n : Z) (l : list A) : list A :=
  if decide (0 <= n)%Z then take (Z.to_nat n) l
  else take (Z.to_nat (Z.of_nat (length l) + n)) l.

Definition find_nearest_vr_images
    (source : RecordSource) (lat lon : R) (n : Z) (radius_m : R)
  : result (list candidate) :=
  bbox ← bbox_from_point lat lon radius_m;
  data ← source bbox;
  let images := default [] data in
  match images with
  | [] => Ok []
  | _ =>
      results ← collect_results lat lon images;
      Ok (slice_to n (sort_by_key distance_m results))
  end.

(** The count handed on by the [index] route: [if n <= 0: n = 1]. *)
Definition index_count (n : Z) : Z := if decide (n <= 0)%Z then 1%Z else n.

Definition index_search (source : RecordSource) (lat lon : R) (n : Z)
  : result (list candidate) :=
  find_nearest_vr_images source lat lon (index_count n) 100.

(** Distance between two candidates. *)
Definition candidate_distance (a b : candidate) : R :=
  haversine_m (cand_lat a) (cand_lon a) (cand_lat b) (cand_lon b).

(** Modelled from the spec: the separation step of
    [GoogleVR4.core.find_panos_and_views], which [panos_api] calls with
    [min_distance_m] and whose module is not among the sources.  Candidates
    are visited in the given order; one is accepted when its distance to
    every candidate accepted so far exceeds [min_sep], and skipped
    otherwise; the visit stops once [max_results] are accepted or the
    candidates are exhausted.  [accepted] holds the accepted candidates,
    oldest first. *)
Fixpoint select_separated (min_sep : R) (max_results : nat)
    (accepted : list candidate) (cands : list candidate) : list candidate :=
  match cands with
  | [] => accepted
  | c :: cands' =>
      if decide (max_results <= length accepted)%nat then accepted
      else if decide (Forall (fun a => min_sep < candidate_distance a c) accepted)
           then select_separated min_sep max_results (accepted ++ [c]) cands'
           else select_separated min_sep max_results accepted cands'
  end.

(** Modelled from the spec: the selection is run on the distance-sorted
    candidates with [maxResults <= 0] coerced to 1. *)
Definition greedy_select (min_sep : R) (max_results : Z)
    (sorted : list candidate) : list candidate :=
  select_separated min_sep (Z.to_nat (index_count max_results)) [] sorted.

(** Every candidate of a list is farther than [min_sep] from every
    candidate listed before it. *)
Definition separated (min_sep : R) (l : list candidate) : Prop :=
  forall (i j : nat) (a b : candidate),
    (i < j)%nat -> l !! i = Some a -> l !! j = Some b ->
    min_sep < candidate_distance a b.

(** ** Rasters *)

(** A raster is a list of rows, a row a list of pixels, a pixel the list of
    its channel values ([H x W x C]). *)
Definition pixel : Type := list R.
Definition image : Type := list (list pixel).

Definition shape_h (img : image) : nat := length img.
Definition shape_w (img : image) : nat := length (default [] (head img)).
Definition shape_c (img : image) : nat :=
  length (default [] (head (default [] (head img)))).

(** Every row has [w] pixels and every pixel [c] channels. *)
Definition well_shaped (img : image) (h w c : nat) : Prop :=
  length img = h /\
  Forall (fun row => length row = w /\ Forall (fun px => length px = c) row) img.

(** A grid of [h] rows of [w] entries each. *)
Definition grid_shape {A} (g : list (list A)) (h w : nat) : Prop :=
  length g = h /\ Forall (fun row => length row = w) g.

(** Every channel value of a raster lies between [lo] and [hi]. *)
Definition image_within (lo hi : R) (img : image) : Prop :=
  Forall (Forall (Forall (fun v : R => lo <= v <= hi))) img.

(** ** NumPy and OpenCV on idealised floats *)

Module np.

(** [np.linspace(start, stop, num)]: [num] evenly spaced samples with both
    end points; a negative [num] raises [ValueError]. *)
Definition linspace (start stop : R) (num : Z) : result (list R) :=
  if decide (num < 0)%Z then Raise ValueError
  else Ok (map (fun i : nat => start + INR i * ((stop - start) / (IZR num - 1)))
               (seq 0 (Z.to_nat num))).

(** [np.meshgrid(xs, ys)]: two grids of [len(ys)] rows and [len(xs)]
    columns. *)
Definition meshgrid (xs ys : list R) : list (list R) * list (list R) :=
  (map (fun _ => xs) ys, map (fun y => map (fun _ => y) xs) ys).

(** Two grids combined element by element. *)
Definition zip_grid {A B C} (f : A -> B -> C)
    (g1 : list (list A)) (g2 : list (list B)) : list (list C) :=
  zip_with (zip_with f) g1 g2.

End np.

(** [cv2.remap] is modelled by its documented behaviour: the destination
    has the size of the maps, and each pixel is the bilinear blend of the
    four source pixels around the mapped coordinate, found through the
    border mode.  The fixed-point rounding of coordinates and the rounding
    of 8-bit pixel values are not modelled. *)
Module cv2.

(** [borderInterpolate(p, len, BORDER_WRAP)]: the index taken modulo the
    length, for either axis. *)
Definition border_wrap (p len : Z) : Z := (p mod len)%Z.

(** The pixel of [src] at a row and a column inside the raster. *)
Definition at_ (src : image) (row col : Z) : pixel :=
  default [] (default [] (src !! Z.to_nat row) !! Z.to_nat col).

(** The four taps (row, column) of a bilinear sample at [(sx, sy)] under
    [BORDER_WRAP], in the order top-left, top-right, bottom-left,
    bottom-right. *)
Definition taps (h w : Z) (sx sy : R) : list (Z * Z) :=
  let x0 := Int_part sx in
  let y0 := Int_part sy in
  [ (border_wrap y0 h, border_wrap x0 w);
    (border_wrap y0 h, border_wrap (x0 + 1) w);
    (border_wrap (y0 + 1) h, border_wrap x0 w);
    (border_wrap (y0 + 1) h, border_wrap (x0 + 1) w) ].

(** The weights of the four taps: products of the fractional offsets. *)
Definition weights (sx sy : R) : list R :=
  let fx := frac_part sx in
  let fy := frac_part sy in
  [ (1 - fx) * (1 - fy); fx * (1 - fy); (1 - fx) * fy; fx * fy ].

(** One output pixel of [remap] with [INTER_LINEAR]: per channel, the
    weighted sum of the four taps. *)
Definition sample (src : image) (sx sy : R) : pixel :=
  let h := Z.of_nat (shape_h src) in
  let w := Z.of_nat (shape_w src) in
  let px := map (fun t : Z * Z => at_ src t.1 t.2) (taps h w sx sy) in
  map (fun k : nat =>
         foldr Rplus 0
           (zip_with (fun wt p => wt * nth k p 0) (weights sx sy) px))
      (seq 0 (shape_c src)).

(** [SHRT_MAX]: [remap] asserts that the rows and the columns of the
    source and of the destination are below it. *)
Definition SHRT_MAX : Z := 32767.

(** [cv2.remap(src, map_x, map_y, INTER_LINEAR, borderMode=BORDER_WRAP)]:
    the destination has the size of the maps and the channels of the
    source; an empty map fails OpenCV's assertion, and so does a source or
    a destination of [SHRT_MAX] or more rows or columns. *)
Definition remap (src : image) (map_x map_y : list (list R))
  : result image :=
  if decide (map_x = [] \/ head map_x = Some [])
  then Raise CvError
  else if decide (Z.of_nat (length (default [] (head map_x))) < SHRT_MAX
                  /\ Z.of_nat (length map_x) < SHRT_MAX
                  /\ Z.of_nat (shape_w src) < SHRT_MAX
                  /\ Z.of_nat (shape_h src) < SHRT_MAX)%Z
  then Ok (np.zip_grid (sample src) map_x map_y)
  else Raise CvError.

End cv2.

(** ** Equirectangular panorama to perspective view *)

(** The spherical angles [(lon, lat)] of the ray of one output pixel: the
    element-wise computation of [perspective_from_equirect] from the grids
    to the angles, at one grid position. *)
Definition ray_angles (yaw pitch f : R) (x_grid y_grid : R) : R * R :=
  let z := f * 1 in
  let x := x_grid in
  let y := - y_grid in
  let norm := sqrt (x * x + y * y + z * z) in
  let x := x / norm in
  let y := y / norm in
  let z := z / norm in
  let sin_pitch := sin pitch in
  let cos_pitch := cos pitch in
  let y_p := y * cos_pitch - z * sin_pitch in
  let z_p := y * sin_pitch + z * cos_pitch in
  let x_p := x in
  let sin_yaw := sin yaw in
  let cos_yaw := cos yaw in
  let x_y := x_p * cos_yaw + z_p * sin_yaw in
  let y_y := y_p in
  let z_y := - x_p * sin_yaw + z_p * cos_yaw in
  let lon := math.atan2 x_y z_y in
  let lat := asin y_y in
  (lon, lat).

(** The panorama coordinates [(x_pano, y_pano)] of that ray. *)
Definition pano_coords (h_in w_in : nat) (yaw pitch f : R)
    (x_grid y_grid : R) : R * R :=
  let angles := ray_angles yaw pitch f x_grid y_grid in
  let lon := angles.1 in
  let lat := angles.2 in
  let x_pano := (lon / (2 * PI) + 0.5) * INR w_in in
  let y_pano := (0.5 - lat / PI) * INR h_in in
  (x_pano, y_pano).

(** An angle in degrees. *)
Definition degrees (rad : R) : R := rad * (180 / PI).

(** A direction [lon_deg] lies, modulo full turns, within half the field
    of view of the yaw. *)
Definition within_field (yaw fov lon_deg : R) : Prop :=
  exists k : Z, yaw - fov / 2 <= lon_deg + 360 * IZR k <= yaw + fov / 2.

Definition perspective_from_equirect (pano : image)
    (yaw_deg pitch_deg fov_deg : R) (out_w out_h : Z) : result image :=
  let h_in := shape_h pano in
  let w_in := shape_w pano in
  let yaw := math.radians yaw_deg in
  let pitch := math.radians pitch_deg in
  let fov := math.radians fov_deg in
  f ← math.div (0.5 * IZR out_w) (tan (fov / 2));
  xs ← np.linspace (- IZR out_w / 2) (IZR out_w / 2) out_w;
  ys ← np.linspace (- IZR out_h / 2) (IZR out_h / 2) out_h;
  let '(x_grid, y_grid) := np.meshgrid xs ys in
  let map_x :=
    np.zip_grid (fun xg yg => (pano_coords h_in w_in yaw pitch f xg yg).1)
                x_grid y_grid in
  let map_y :=
    np.zip_grid (fun xg yg => (pano_coords h_in w_in yaw pitch f xg yg).2)
                x_grid y_grid in
  cv2.remap pano map_x map_y.

(** The maps [map_x] and [map_y] that [perspective_from_equirect] computes
    for a panorama of [h_in] rows and [w_in] columns and hands to
    [cv2.remap]: the panorama coordinates of every output pixel. *)
Definition equirect_maps (h_in w_in : nat)
    (yaw_deg pitch_deg fov_deg : R) (out_w out_h : Z)
  : result (list (list R) * list (list R)) :=
  let yaw := math.radians yaw_deg in
  let pitch := math.radians pitch_deg in
  let fov := math.radians fov_deg in
  f ← math.div (0.5 * IZR out_w) (tan (fov / 2));
  xs ← np.linspace (- IZR out_w / 2) (IZR out_w / 2) out_w;
  ys ← np.linspace (- IZR out_h / 2) (IZR out_h / 2) out_h;
  let '(x_grid, y_grid) := np.meshgrid xs ys in
  let map_x :=
    np.zip_grid (fun xg yg => (pano_coords h_in w_in yaw pitch f xg yg).1)
                x_grid y_grid in
  let map_y :=
    np.zip_grid (fun xg yg => (pano_coords h_in w_in yaw pitch f xg yg).2)
                x_grid y_grid in
  Ok (map_x, map_y).

(** The panorama and an output of [out_w] by [out_h] pixels pass the size
    assertion of [cv2.remap]. *)
Definition within_remap_limit (pano : image) (out_w out_h : Z) : Prop :=
  (out_w < cv2.SHRT_MAX /\ out_h < cv2.SHRT_MAX
   /\ Z.of_nat (shape_w pano) < cv2.SHRT_MAX
   /\ Z.of_nat (shape_h pano) < cv2.SHRT_MAX)%Z.

(** The horizontal map of a view covers its field, for a panorama of
    [w_in] columns: every entry is the column of a longitude within half
    the field of view of the yaw (modulo full turns), the first entry of
    every row is the column of the longitude [left_deg], and the entry at
    the index [last] is the column of the longitude [right_deg]. *)
Definition covers_field (w_in : nat) (map_x : list (list R))
    (yaw fov : R) (last : nat) (left_deg right_deg : R) : Prop :=
  (forall r c sx,
     map_x !! r ≫= (.!! c) = Some sx ->
     exists lon_deg,
       within_field yaw fov lon_deg
       /\ sx = (lon_deg / 360 + 0.5) * INR w_in)
  /\ (forall r sx,
        map_x !! r ≫= (.!! 0%nat) = Some sx ->
        sx = (left_deg / 360 + 0.5) * INR w_in)
  /\ (forall r sx,
        map_x !! r ≫= (.!! last) = Some sx ->
        sx = (right_deg / 360 + 0.5) * INR w_in).

(** ** The panorama cache and the four views *)

(** The files under [static/] and the URLs requested so far. *)
Record world : Type := mkWorld {
  fs : gmap string (list byte);
  net_log : list string
}.

(** What a streamed [requests.get] yields: no response at all, or a status
    and the chunks of the body; [stream_ok = false] is a connection that
    breaks after the listed chunks. *)
Inductive http_response : Type :=
| NoResponse
| Response (status_ok : bool) (chunks : list (list byte)) (stream_ok : bool).

(** The collaborators of the module: the image host, OpenCV's codec and
    Flask's [url_for("static", filename=...)]. *)
Record env : Type := mkEnv {
  http_get : string -> http_response;
  imdecode : list byte -> option image;
  imencode : image -> list byte;
  url_for_static : string -> string
}.

(** Computations that read and write the world and may raise. *)
Definition M (A : Type) : Type := world -> result A * world.

#[global] Instance M_ret : MRet M := fun A a w => (Ok a, w).
#[global] Instance M_bind : MBind M := fun A B f m w =>
  match m w with
  | (Ok a, w') => f a w'
  | (Raise e, w') => (Raise e, w')
  end.

Definition lift {A} (r : result A) : M A := fun w => (r, w).

Definition pano_path_of (image_id : string) : string :=
  "static/panos/" +:+ image_id +:+ ".jpg".

Definition rel_path_of (image_id name : string) : string :=
  "views/" +:+ image_id +:+ "_" +:+ name +:+ ".jpg".

Definition out_path_of (image_id name : string) : string :=
  "static/" +:+ rel_path_of image_id name.

(** The body of [if not pano_path.exists()]: the request is logged, a
    failed request or status raises before the file is opened, and the
    non-empty chunks received are written in order. *)
Definition download (E : env) (image_url pano_path : string) : M () :=
  fun w =>
    let w1 := {| fs := fs w; net_log := net_log w ++ [image_url] |} in
    match http_get E image_url with
    | NoResponse => (Raise RequestException, w1)
    | Response status_ok chunks stream_ok =>
        if status_ok then
          let content := concat (filter (fun chunk => chunk ≠ []) chunks) in
          let w2 := {| fs := <[pano_path := content]> (fs w1);
                       net_log := net_log w1 |} in
          if stream_ok then (Ok (), w2) else (Raise RequestException, w2)
        else (Raise RequestException, w1)
    end.

(** [cv2.imread]: [None] for a missing or undecodable file. *)
Definition imread (E : env) (path : string) : M (option image) :=
  fun w => (Ok (fs w !! path ≫= imdecode E), w).

Definition imwrite (E : env) (path : string) (img : image) : M () :=
  fun w => (Ok (), {| fs := <[path := imencode E img]> (fs w);
                      net_log := net_log w |}).

(** The first part of [generate_normal_views_for_pano]: the panorama is
    downloaded unless its file exists, then read. *)
Definition load_pano (E : env) (image_id image_url : string)
  : M (option image) :=
  let pano_path := pano_path_of image_id in
  fun w =>
    ((if decide (is_Some (fs w !! pano_path)) then mret ()
      else download E image_url pano_path) ≫= fun _ =>
     imread E pano_path) w.

Definition yaw_list : list Z := [0; 90; 180; 270]%Z.

Definition names : gmap Z string :=
  list_to_map [(0, "front"); (90, "right"); (180, "back"); (270, "left")]%Z.

Definition view_name (yaw : Z) : string := default (pretty yaw) (names !! yaw).

Definition out_w : Z := 800.
Definition out_h : Z := 600.
Definition fov_deg : Z := 90.
Definition pitch_deg : Z := 0.

(** One iteration of [for yaw in yaw_list]. *)
Definition render_view (E : env) (image_id : string) (pano : image)
    (results : gmap string string) (yaw : Z) : M (gmap string string) :=
  view ← lift (perspective_from_equirect pano (IZR yaw) (IZR pitch_deg)
                 (IZR fov_deg) out_w out_h);
  let name := view_name yaw in
  _ ← imwrite E (out_path_of image_id name) view;
  mret (<[name := url_for_static E (rel_path_of image_id name)]> results).

Fixpoint render_views (E : env) (image_id : string) (pano : image)
    (results : gmap string string) (yaws : list Z) : M (gmap string string) :=
  match yaws with
  | [] => mret results
  | yaw :: yaws' =>
      results' ← render_view E image_id pano results yaw;
      render_views E image_id pano results' yaws'
  end.

Definition generate_normal_views_for_pano (E : env)
    (image_id image_url : string) : M (gmap string string) :=
  pano ← load_pano E image_id image_url;
  match pano with
  | None => mret ∅
  | Some pano => render_views E image_id pano ∅ yaw_list
  end.

(** ** The [index] route *)

(** The characters [str.strip()] removes: the ASCII white space of Python
    (tab, line feed, vertical tab, form feed, carriage return, the four
    separators 28 to 31, and the space). *)
Definition py_isspace (c : Ascii.ascii) : bool :=
  bool_decide (Ascii.N_of_ascii c ∈ [9; 10; 11; 12; 13; 28; 29; 30; 31; 32]%N).

Fixpoint lstrip (s : string) : string :=
  match s with
  | EmptyString => EmptyString
  | String c s' => if py_isspace c then lstrip s' else s
  end.

Definition strip (s : string) : string :=
  String.rev (lstrip (String.rev (lstrip s))).

(** A string of white space only (the empty string included). *)
Fixpoint all_space (s : string) : bool :=
  match s with
  | EmptyString => true
  | String c s' => py_isspace c && all_space s'
  end.

Inductive http_method : Type := GET | POST.

Record request : Type := mkRequest {
  req_method : http_method;
  req_form : gmap string string
}.

(** A returned image with the keys [input_lat] and [input_lon] the route
    adds to it. *)
Record shown_image : Type := mkShown {
  shown : candidate;
  input_lat : R;
  input_lon : R
}.

(** The variables handed to [render_template]. *)
Record page : Type := mkPage {
  page_results : list shown_image;
  page_error : option string;
  lat_value : string;
  lon_value : string;
  count_value : string
}.

(** The built-ins the route applies to its input: [float] and [int] (with
    [None] for a [ValueError]) and the text of an exception. *)
Record builtins : Type := mkBuiltins {
  float_of : string -> option R;
  int_of : string -> option Z;
  str_of_exn : exn -> string
}.

(** [request.form.get(key, "").strip()]. *)
Definition form_get (form : gmap string string) (key : string) : string :=
  strip (default "" (form !! key)).

Definition index (B : builtins) (source : RecordSource) (req : request)
  : result page :=
  match req_method req with
  | GET =>
      Ok {| page_results := []; page_error := None;
            lat_value := ""; lon_value := ""; count_value := "3" |}
  | POST =>
      let lat_str := form_get (req_form req) "lat" in
      let lon_str := form_get (req_form req) "lon" in
      let count_str :=
        let c := form_get (req_form req) "count" in
        if decide (c = "") then "3" else c in
      let render results error :=
        Ok {| page_results := results; page_error := error;
              lat_value := lat_str; lon_value := lon_str;
              count_value := count_str |} in
      if decide (lat_str = "" \/ lon_str = "")
      then render [] (Some "Please enter both latitude and longitude.")
      else
        match float_of B lat_str, float_of B lon_str, int_of B count_str with
        | Some lat, Some lon, Some n =>
            match index_search source lat lon n with
            | Ok [] =>
                render [] (Some "No imagery found within 100m of this location.")
            | Ok images =>
                render (map (fun img => {| shown := img; input_lat := lat;
                                           input_lon := lon |}) images)
                       None
            | Raise ValueError =>
                render []
                  (Some "Latitude, longitude and count must be valid numbers.")
            | Raise RequestException =>
                render []
                  (Some ("Error talking to Mapillary API: "
                         +:+ str_of_exn B RequestException))
            | Raise e => Raise e
            end
        | _, _, _ =>
            render []
              (Some "Latitude, longitude and count must be valid numbers.")
        end
  end.

(** ** The detection endpoints of [server_fastapi.py] *)

(** One element of [pano_result["images"]], as the endpoints read it:
    [img.get('id')], the truth of [img.get('pano_downloaded')] and
    [img.get('pano_path')]. *)
Record pano_entry : Type := mkEntry {
  entry_id : option string;
  entry_downloaded : bool;
  entry_pano_path : option string
}.

(** The value stored under ['object_detection']. *)
Inductive detection (D : Type) : Type :=
| Detected (d : D)
| PanoImageNotFound      (* 'Pano image not found.' *)
| PanoNotDownloaded.     (* 'Pano not downloaded.' *)
Arguments Detected {D} d.
Arguments PanoImageNotFound {D}.
Arguments PanoNotDownloaded {D}.

Record detected_object (D : Type) : Type := mkDetected {
  det_pano_id : option string;
  det_pano_path : option string;
  object_detection : detection D
}.
Arguments mkDetected {D} _ _ _.
Arguments det_pano_id {D} _.
Arguments det_pano_path {D} _.
Arguments object_detection {D} _.

(** One element of [crop_classifications]: the crop with its
    ["classification"], or with the ["error"] text of the exception. *)
Record crop_classification (C : Type) : Type := mkCrop {
  crop_image : string;
  classification : C + string
}.
Arguments mkCrop {C} _ _.
Arguments crop_image {C} _.
Arguments classification {C} _.

Record classify_result (C : Type) : Type := mkClassify {
  cls_pano_id : option string;
  crop_classifications : list (crop_classification C)
}.
Arguments mkClassify {C} _ _.
Arguments cls_pano_id {C} _.
Arguments crop_classifications {C} _.

(** The collaborators of the endpoints, over a state [S] of files and
    models they read and change: [run_object_detection], [os.path.exists],
    the [glob] of the crop directory of a panorama, the plant classifier
    applied to one crop, and the text of an exception. *)
Record detector (S D C : Type) : Type := mkDetector {
  run_object_detection : string -> list string -> S -> result D * S;
  path_exists : string -> S -> bool;
  glob_crops : string -> S -> list string;
  classify_crop : string -> S -> result C * S;
  exn_text : exn -> string
}.
Arguments run_object_detection {S D C} _ _ _ _.
Arguments path_exists {S D C} _ _ _.
Arguments glob_crops {S D C} _ _ _.
Arguments classify_crop {S D C} _ _ _.
Arguments exn_text {S D C} _ _.

(** [pano_path and os.path.exists(pano_path)]. *)
Definition pano_present {S D C} (T : detector S D C)
    (pano_path : option string) (s : S) : option string :=
  match pano_path with
  | Some p => if decide (p = "") then None
              else if path_exists T p s then Some p else None
  | None => None
  end.

(** The loop of [panos_detect_objects_api] over the images. *)
Fixpoint detect_objects {S D C} (T : detector S D C) (labels : list string)
    (images : list pano_entry) (s : S)
  : result (list (detected_object D)) * S :=
  match images with
  | [] => (Ok [], s)
  | img :: images' =>
      if entry_downloaded img then
        match pano_present T (entry_pano_path img) s with
        | Some p =>
            match run_object_detection T p labels s with
            | (Ok d, s1) =>
                match detect_objects T labels images' s1 with
                | (Ok rest, s2) =>
                    (Ok (mkDetected (entry_id img) (Some p) (Detected d) :: rest),
                     s2)
                | (Raise e, s2) => (Raise e, s2)
                end
            | (Raise e, s1) => (Raise e, s1)
            end
        | None =>
            match detect_objects T labels images' s with
            | (Ok rest, s2) =>
                (Ok (mkDetected (entry_id img) (entry_pano_path img)
                       PanoImageNotFound :: rest), s2)
            | (Raise e, s2) => (Raise e, s2)
            end
        end
      else
        match detect_objects T labels images' s with
        | (Ok rest, s2) =>
            (Ok (mkDetected (entry_id img) (entry_pano_path img)
                   PanoNotDownloaded :: rest), s2)
        | (Raise e, s2) => (Raise e, s2)
        end
  end.

(** The loop [for crop_img in crop_images] of
    [panos_detect_and_classify_api]: an exception of the classifier becomes
    the ["error"] entry of its crop. *)
Fixpoint classify_crops {S D C} (T : detector S D C)
    (crop_images : list string) (s : S)
  : list (crop_classification C) * S :=
  match crop_images with
  | [] => ([], s)
  | crop :: crops' =>
      let '(r, s1) := classify_crop T crop s in
      let entry :=
        match r with
        | Ok c => mkCrop crop (inl c)
        | Raise e => mkCrop crop (inr (exn_text T e))
        end in
      let '(rest, s2) := classify_crops T crops' s1 in
      (entry :: rest, s2)
  end.

(** The loop of [panos_detect_and_classify_api] over the images:
    [detected_objects] and [classify_results]. *)
Fixpoint detect_and_classify {S D C} (T : detector S D C)
    (labels : list string) (images : list pano_entry) (s : S)
  : result (list (detected_object D) * list (classify_result C)) * S :=
  match images with
  | [] => (Ok ([], []), s)
  | img :: images' =>
      if entry_downloaded img then
        match pano_present T (entry_pano_path img) s with
        | Some p =>
            match run_object_detection T p labels s with
            | (Ok d, s1) =>
                let crop_images := glob_crops T p s1 in
                let '(crops, s2) := classify_crops T crop_images s1 in
                match detect_and_classify T labels images' s2 with
                | (Ok (dets, clss), s3) =>
                    (Ok (mkDetected (entry_id img) (Some p) (Detected d) :: dets,
                         mkClassify (entry_id img) crops :: clss), s3)
                | (Raise e, s3) => (Raise e, s3)
                end
            | (Raise e, s1) => (Raise e, s1)
            end
        | None =>
            match detect_and_classify T labels images' s with
            | (Ok (dets, clss), s2) =>
                (Ok (mkDetected (entry_id img) (entry_pano_path img)
                       PanoImageNotFound :: dets, clss), s2)
            | (Raise e, s2) => (Raise e, s2)
            end
        end
      else
        match detect_and_classify T labels images' s with
        | (Ok (dets, clss), s2) =>
            (Ok (mkDetected (entry_id img) (entry_pano_path img)
                   PanoNotDownloaded :: dets, clss), s2)
        | (Raise e, s2) => (Raise e, s2)
        end
  end.

(** The detection ran on the panorama of an entry. *)
Definition is_detected {D} (d : detected_object D) : bool :=
  match object_detection d with
  | Detected _ => true
  | _ => false
  end.

(** What an entry of [detected_objects] says about its image: a detection
    only for a downloaded panorama with a non-empty path, which it
    reports; otherwise the path of the image as it is, with the message
    that tells a missing file from a panorama that was not downloaded. *)
Definition reports {D} (img : pano_entry) (d : detected_object D) : Prop :=
  det_pano_id d = entry_id img
  /\ match object_detection d with
     | Detected _ =>
         entry_downloaded img = true
         /\ exists p, entry_pano_path img = Some p /\ p <> ""
                      /\ det_pano_path d = Some p
     | PanoImageNotFound =>
         entry_downloaded img = true
         /\ det_pano_path d = entry_pano_path img
     | PanoNotDownloaded =>
         entry_downloaded img = false
         /\ det_pano_path d = entry_pano_path img
     end.

(** A detector on a state without content: every path exists, the
    detection and the classifier answer as given, and each panorama has
    the two crops ["c1.jpg"] and ["c2.jpg"]. *)
Definition demo_detector (detect : result nat) (classify : result nat)
  : detector () nat nat :=
  {| run_object_detection := fun _ _ s => (detect, s);
     path_exists := fun _ _ => true;
     glob_crops := fun _ _ => ["c1.jpg"; "c2.jpg"];
     classify_crop := fun _ s => (classify, s);
     exn_text := fun _ => "error" |}.

Definition demo_entries : list pano_entry :=
  [ mkEntry (Some "a") true (Some "panos/a.jpg");
    mkEntry (Some "b") false None;
    mkEntry (Some "c") true (Some "") ].

(** ** Example inputs *)

(** Two records at the centre (0, 0), listed with id ["b"] before ["a"]. *)
Definition tie_records : list raw_image :=
  [ mkRaw (Some "b") (Some [0; 0]) (Some true) None;
    mkRaw (Some "a") (Some [0; 0]) (Some true) None ].

Definition tie_source : RecordSource := fun _ => Ok (Some tie_records).

(** The candidate built from such a record. *)
Definition tie_candidate (i : string) : candidate :=
  {| cand_id := i; cand_lat := 0; cand_lon := 0; distance_m := 0;
     viewer_url := viewer_url_of i; is_pano := true;
     thumb_2048_url := None |}.

(** A catalog that cannot be reached. *)
Definition failing_source : RecordSource := fun _ => Raise RequestException.

(** A catalog whose records lack coordinates. *)
Definition blank_records : list raw_image :=
  [ mkRaw (Some "x") None (Some true) None;
    mkRaw (Some "y") (Some [1]) None None ].


(** Built-ins that read every number as 0 and every count as 5, built-ins
    that reject every number, and a form with both coordinates. *)
Definition demo_builtins : builtins :=
  mkBuiltins (fun _ => Some 0) (fun _ => Some 5%Z) (fun _ => "").

Definition strict_builtins : builtins :=
  mkBuiltins (fun _ => None) (fun _ => None) (fun _ => "").

Definition demo_form : gmap string string := {[ "lat" := "0"; "lon" := "0" ]}.

(** One record at latitude and longitude 0.00089 degrees: inside the box of
    radius 100 m around (0, 0), about 140 m from the centre. *)
Definition corner_records : list raw_image :=
  [ mkRaw (Some "corner") (Some [89 / 100000; 89 / 100000]) (Some true) None ].

Definition corner_source : RecordSource := fun _ => Ok (Some corner_records).

(** A panorama of two rows, one column and one channel: the top row holds
    10, the bottom row 20. *)
Definition two_row_pano : image := [ [[10]]; [[20]] ].

(** A black panorama of 16384 rows and 32768 columns of three channels. *)
Definition huge_pano : image :=
  replicate (Z.to_nat 16384) (replicate (Z.to_nat 32768) [0; 0; 0]).

(** A stand-in environment and a world that holds the panorama of image
    ["42"]. *)
Definition demo_env : env :=
  {| http_get := fun _ => NoResponse;
     imdecode := fun _ => Some [[[1]]];
     imencode := fun _ => [];
     url_for_static := fun path => "/static/" +:+ path |}.

Definition demo_world : world :=
  {| fs := {[ pano_path_of "42" := [] ]}; net_log := [] |}.

(** An environment whose files decode to the large panorama. *)
Definition huge_env : env :=
  {| http_get := fun _ => NoResponse;
     imdecode := fun _ => Some huge_pano;
     imencode := fun _ => [];
     url_for_static := fun path => "/static/" +:+ path |}.

(** ** Tactics *)

(** Case analysis on the comparisons of reals that a goal tests. *)
Ltac real_prune := try solve [exfalso; lra | contradiction].

Ltac real_cases :=
  repeat match goal with
         | |- context [decide (?a <= ?b)] =>
             destruct (decide (a <= b)); real_prune
         | |- context [Rle_dec ?a ?b] =>
             destruct (Rle_dec a b); real_prune
         | |- context [Rlt_dec ?a ?b] =>
             destruct (Rlt_dec a b); real_prune
         end.

(** ** Properties of the geo helpers *)

Lemma sin_half_sqr (x : R) : sin (x / 2) ^ 2 = (1 - cos x) / 2.
Proof.
  replace x with (2 * (x / 2)) at 2 by field.
  rewrite cos_2a_sin. simpl. field.
Qed.

Lemma haversine_a_dot (lat1 lon1 lat2 lon2 : R) :
  haversine_a lat1 lon1 lat2 lon2 =
  (1 - (sin (math.radians lat1) * sin (math.radians lat2)
        + cos (math.radians lat1) * cos (math.radians lat2)
          * cos (math.radians (lon2 - lon1)))) / 2.
Proof.
  unfold haversine_a. cbv zeta. rewrite !sin_half_sqr.
  replace (math.radians (lat2 - lat1))
    with (math.radians lat2 - math.radians lat1)
    by (unfold math.radians; ring).
  rewrite cos_minus. field.
Qed.

Lemma haversine_a_range (lat1 lon1 lat2 lon2 : R) :
  0 <= haversine_a lat1 lon1 lat2 lon2 <= 1.
Proof.
  rewrite haversine_a_dot.
  set (s1 := sin (math.radians lat1)). set (s2 := sin (math.radians lat2)).
  set (c1 := cos (math.radians lat1)). set (c2 := cos (math.radians lat2)).
  set (k := cos (math.radians (lon2 - lon1))).
  assert (H1 : s1 ^ 2 + c1 ^ 2 = 1)
    by (pose proof (sin2_cos2 (math.radians lat1)) as H;
        unfold Rsqr in H; subst s1 c1; lra).
  assert (H2 : s2 ^ 2 + c2 ^ 2 = 1)
    by (pose proof (sin2_cos2 (math.radians lat2)) as H;
        unfold Rsqr in H; subst s2 c2; lra).
  assert (Hk : -1 <= k <= 1) by (subst k; apply COS_bound).
  assert (Hd : (s1 * s2 + c1 * c2 * k) ^ 2 <= 1).
  { assert (Hcs : (s1 ^ 2 + c1 ^ 2) * (s2 ^ 2 + (c2 * k) ^ 2)
                  - (s1 * s2 + c1 * c2 * k) ^ 2
                  = (s1 * (c2 * k) - c1 * s2) ^ 2) by ring.
    pose proof (pow2_ge_0 (s1 * (c2 * k) - c1 * s2)) as Hsq.
    assert (Hck : (c2 * k) ^ 2 <= c2 ^ 2).
    { pose proof (pow2_ge_0 c2). replace ((c2 * k) ^ 2) with (c2 ^ 2 * k ^ 2) by ring.
      assert (k ^ 2 <= 1) by nra. nra. }
    rewrite H1, Rmult_1_l in Hcs. lra. }
  assert (-1 <= s1 * s2 + c1 * c2 * k <= 1) by nra.
  lra.
Qed.

Lemma haversine_distance_m_total (lat1 lon1 lat2 lon2 : R) :
  haversine_distance_m lat1 lon1 lat2 lon2
  = Ok (haversine_m lat1 lon1 lat2 lon2).
Proof.
  unfold haversine_distance_m, haversine_m, math.sqrt. cbv zeta.
  destruct (haversine_a_range lat1 lon1 lat2 lon2) as [H0 H1].
  destruct (Rlt_dec (haversine_a lat1 lon1 lat2 lon2) 0) as [Hn|_]; [lra|].
  cbn.
  destruct (Rlt_dec (1 - haversine_a lat1 lon1 lat2 lon2) 0) as [Hn|_]; [lra|].
  reflexivity.
Qed.

Lemma PI_bounds : 3141 / 1000 < PI < 31421 / 10000.
Proof.
  split.
  - pose proof (proj1 (PI_2_3_7_ineq 1)) as H.
    unfold sum_f_R0, tg_alt, PI_2_3_7_tg, Ratan_seq in H.
    simpl in H. lra.
  - pose proof (proj2 (PI_2_3_7_ineq 1)) as H.
    unfold sum_f_R0, tg_alt, PI_2_3_7_tg, Ratan_seq in H.
    simpl in H. lra.
Qed.

Lemma haversine_a_sym (lat1 lon1 lat2 lon2 : R) :
  haversine_a lat1 lon1 lat2 lon2 = haversine_a lat2 lon2 lat1 lon1.
Proof.
  rewrite !haversine_a_dot.
  replace (math.radians (lon1 - lon2)) with (- math.radians (lon2 - lon1))
    by (unfold math.radians; ring).
  rewrite cos_neg. field.
Qed.

Lemma haversine_a_same (lat lon : R) : haversine_a lat lon lat lon = 0.
Proof.
  unfold haversine_a, math.radians. cbv zeta.
  replace ((lat - lat) * (PI / 180) / 2) with 0 by field.
  replace ((lon - lon) * (PI / 180) / 2) with 0 by field.
  rewrite sin_0. ring.
Qed.

Lemma atan2_0_1 : math.atan2 0 1 = 0.
Proof.
  unfold math.atan2. destruct (Rlt_dec 0 1) as [_|H]; [|lra].
  replace (0 / 1) with 0 by field. apply atan_0.
Qed.

Lemma haversine_m_sym (lat1 lon1 lat2 lon2 : R) :
  haversine_m lat1 lon1 lat2 lon2 = haversine_m lat2 lon2 lat1 lon1.
Proof. unfold haversine_m. now rewrite haversine_a_sym. Qed.

Lemma haversine_m_same (lat lon : R) : haversine_m lat lon lat lon = 0.
Proof.
  unfold haversine_m. rewrite haversine_a_same. cbv zeta.
  rewrite Rminus_0_r, sqrt_0, sqrt_1, atan2_0_1. ring.
Qed.

(** C6: the haversine distance is symmetric in its two points, and the
    distance of a point to itself is 0; in both cases the function returns
    (no domain error is raised). *)
Theorem haversine_symmetric_and_zero (lat1 lon1 lat2 lon2 : R) :
  haversine_distance_m lat1 lon1 lat2 lon2
  = haversine_distance_m lat2 lon2 lat1 lon1
  /\ haversine_distance_m lat1 lon1 lat1 lon1 = Ok 0.
Proof.
  rewrite !haversine_distance_m_total. split.
  - f_equal. apply haversine_m_sym.
  - f_equal. apply haversine_m_same.
Qed.

(** *** The bounding box *)

Lemma meters_per_deg_lon_pos (lat : R) :
  0 < 111320 * Rmax (cos (math.radians lat)) (1 / 1000000).
Proof.
  pose proof (Rmax_r (cos (math.radians lat)) (1 / 1000000)). lra.
Qed.

(** The divisions of [bbox_from_point] never divide by zero: the function
    returns the box centred on the point for every radius. *)
Lemma bbox_from_point_ok (lat lon radius_m : R) :
  bbox_from_point lat lon radius_m
  = Ok {| min_lat := lat - delta_lat_of radius_m;
          max_lat := lat + delta_lat_of radius_m;
          min_lon := lon - delta_lon_of lat radius_m;
          max_lon := lon + delta_lon_of lat radius_m |}.
Proof.
  unfold bbox_from_point, math.div.
  destruct (Req_dec_T 111320 0) as [H|_]; [lra|]. cbn.
  pose proof (meters_per_deg_lon_pos lat) as Hpos.
  destruct (Req_dec_T _ 0) as [H|_]; [lra|]. reflexivity.
Qed.

Lemma delta_lat_of_pos (radius_m : R) : 0 < radius_m -> 0 < delta_lat_of radius_m.
Proof. intros H. unfold delta_lat_of. apply Rdiv_lt_0_compat; lra. Qed.

Lemma delta_lon_of_pos (lat radius_m : R) :
  0 < radius_m -> 0 < delta_lon_of lat radius_m.
Proof.
  intros H. unfold delta_lon_of.
  apply Rdiv_lt_0_compat; [lra | apply meters_per_deg_lon_pos].
Qed.

Lemma delta_lat_of_nonpos (radius_m : R) :
  radius_m <= 0 -> delta_lat_of radius_m <= 0.
Proof.
  intros H. unfold delta_lat_of, Rdiv.
  assert (0 < / 111320) by (apply Rinv_0_lt_compat; lra). nra.
Qed.

Lemma delta_lon_of_nonpos (lat radius_m : R) :
  radius_m <= 0 -> delta_lon_of lat radius_m <= 0.
Proof.
  intros H. unfold delta_lon_of, Rdiv.
  pose proof (Rinv_0_lt_compat _ (meters_per_deg_lon_pos lat)). nra.
Qed.

(** C5, as the code has it: [bbox_from_point] does not validate the radius
    and never fails; for a radius that is zero or negative it returns a box,
    whose upper bounds are then not above its lower bounds. *)
Theorem bbox_from_point_nonpositive_radius (lat lon radius_m : R) :
  radius_m <= 0 ->
  exists b, bbox_from_point lat lon radius_m = Ok b
            /\ max_lat b <= min_lat b /\ max_lon b <= min_lon b.
Proof.
  intros Hr. eexists. split; [apply bbox_from_point_ok|]. cbn.
  pose proof (delta_lat_of_nonpos radius_m Hr).
  pose proof (delta_lon_of_nonpos lat radius_m Hr). lra.
Qed.

Lemma bbox_from_point_nonpositive_radius_witness :
  exists b, bbox_from_point 0 0 (-1) = Ok b
            /\ max_lat b <= min_lat b /\ max_lon b <= min_lon b.
Proof. apply (bbox_from_point_nonpositive_radius 0 0 (-1)). lra. Defined.

(** C5 fails as stated: for the radius -1 a box is returned, not
    [InvalidInput]. *)
Lemma bbox_from_point_negative_radius_returns :
  -1 <= 0
  /\ bbox_from_point 0 0 (-1) <> Raise InvalidInput
  /\ bbox_from_point 0 0 (-1)
     = Ok {| min_lat := 1 / 111320; max_lat := - (1 / 111320);
             min_lon := 1 / 111320; max_lon := - (1 / 111320) |}.
Proof.
  assert (E : bbox_from_point 0 0 (-1)
     = Ok {| min_lat := 1 / 111320; max_lat := - (1 / 111320);
             min_lon := 1 / 111320; max_lon := - (1 / 111320) |}).
  { rewrite bbox_from_point_ok. unfold delta_lat_of, delta_lon_of, math.radians.
    rewrite Rmult_0_l, cos_0.
    rewrite Rmax_left by lra. f_equal. f_equal; field. }
  split; [lra|]. split; [|exact E]. rewrite E. discriminate.
Qed.

Lemma Rabs_le_between (a b : R) : Rabs a <= b -> - b <= a <= b.
Proof. unfold Rabs. destruct (Rcase_abs a); lra. Qed.

(** C4, as the code has it: for a positive radius the box is returned, it
    contains the centre strictly inside, and it is exactly the set of
    points within [radius / 111320] degrees of latitude and
    [radius / (111320 * max(cos lat, 1e-6))] degrees of longitude of the
    centre. *)
Theorem bbox_from_point_contains_center (lat lon radius_m : R) :
  0 < radius_m ->
  exists b, bbox_from_point lat lon radius_m = Ok b
    /\ in_bbox b lat lon
    /\ min_lat b < lat < max_lat b /\ min_lon b < lon < max_lon b
    /\ forall plat plon,
         in_bbox b plat plon <->
         Rabs (plat - lat) <= delta_lat_of radius_m
         /\ Rabs (plon - lon) <= delta_lon_of lat radius_m.
Proof.
  intros Hr. eexists. split; [apply bbox_from_point_ok|].
  pose proof (delta_lat_of_pos radius_m Hr).
  pose proof (delta_lon_of_pos lat radius_m Hr).
  unfold in_bbox. cbn. repeat split; try lra.
  - apply Rabs_le. lra.
  - apply Rabs_le. lra.
  - destruct H1 as [Ha _]. apply Rabs_le_between in Ha. lra.
  - destruct H1 as [Ha _]. apply Rabs_le_between in Ha. lra.
  - destruct H1 as [_ Ha]. apply Rabs_le_between in Ha. lra.
  - destruct H1 as [_ Ha]. apply Rabs_le_between in Ha. lra.
Qed.

Lemma bbox_from_point_contains_center_witness :
  exists b, bbox_from_point 0 0 100 = Ok b
    /\ in_bbox b 0 0
    /\ min_lat b < 0 < max_lat b /\ min_lon b < 0 < max_lon b
    /\ forall plat plon,
         in_bbox b plat plon <->
         Rabs (plat - 0) <= delta_lat_of 100
         /\ Rabs (plon - 0) <= delta_lon_of 0 100.
Proof. apply (bbox_from_point_contains_center 0 0 100). lra. Defined.

(** The distance to a point due north, on the same meridian, is the arc of
    the latitude difference. *)
Lemma haversine_m_due_north (lat lon d : R) :
  0 <= d < 180 ->
  haversine_m lat lon (lat + d) lon = 6371000 * math.radians d.
Proof.
  intros [Hd0 Hd1].
  pose proof PI_RGT_0 as Hpi.
  set (t := math.radians d / 2).
  assert (Ht : 0 <= t < PI / 2).
  { unfold t, math.radians. split.
    - apply Rmult_le_pos; [|lra]. apply Rmult_le_pos; lra.
    - assert (d * (PI / 180) < 180 * (PI / 180)) by (apply Rmult_lt_compat_r; lra).
      lra. }
  assert (Ha : haversine_a lat lon (lat + d) lon = sin t ^ 2).
  { unfold haversine_a. cbv zeta.
    replace (math.radians (lon - lon) / 2) with 0
      by (unfold math.radians; field).
    replace (lat + d - lat) with d by ring.
    rewrite sin_0. fold t. ring. }
  unfold haversine_m. rewrite Ha. cbv zeta.
  assert (Hs : 0 <= sin t) by (apply sin_ge_0; lra).
  assert (Hc : 0 < cos t) by (apply cos_gt_0; lra).
  rewrite sqrt_pow2 by exact Hs.
  replace (1 - sin t ^ 2) with (cos t ^ 2)
    by (pose proof (sin2_cos2 t) as H; unfold Rsqr in H; lra).
  rewrite sqrt_pow2 by lra.
  unfold math.atan2. destruct (Rlt_dec 0 (cos t)) as [_|H]; [|lra].
  change (sin t / cos t) with (tan t).
  rewrite atan_tan by lra. unfold t. field.
Qed.

(** C4 fails as stated: around the centre (0, 0) with radius 111320 m the
    box ends at latitude 1, while the point (1.0005, 0) is closer than the
    radius and lies outside it. *)
Lemma bbox_from_point_not_superset :
  exists b d,
    bbox_from_point 0 0 111320 = Ok b
    /\ haversine_distance_m 0 0 (10005 / 10000) 0 = Ok d
    /\ d <= 111320
    /\ ~ in_bbox b (10005 / 10000) 0.
Proof.
  eexists. eexists. split; [apply bbox_from_point_ok|].
  split; [apply haversine_distance_m_total|]. split.
  - replace (10005 / 10000) with (0 + 10005 / 10000) by ring.
    rewrite haversine_m_due_north by lra.
    unfold math.radians. pose proof PI_bounds. lra.
  - unfold in_bbox, delta_lat_of. cbn. lra.
Qed.

(** In longitude the box is no superset either: around the pole (90, 0)
    with radius 1 m it spans less than 9 degrees of longitude, while the
    point (90, 100) is the pole itself, at distance 0. *)
Lemma bbox_from_point_pole :
  exists b,
    bbox_from_point 90 0 1 = Ok b
    /\ haversine_distance_m 90 0 90 100 = Ok 0
    /\ ~ in_bbox b 90 100.
Proof.
  eexists. split; [apply bbox_from_point_ok|].
  assert (Hr : math.radians 90 = PI / 2) by (unfold math.radians; field).
  split.
  - rewrite haversine_distance_m_total. f_equal. unfold haversine_m.
    assert (Ha : haversine_a 90 0 90 100 = 0).
    { unfold haversine_a. cbv zeta. rewrite Hr, cos_PI2.
      replace (math.radians (90 - 90) / 2) with 0
        by (unfold math.radians; field).
      rewrite sin_0. ring. }
    rewrite Ha. cbv zeta. rewrite Rminus_0_r, sqrt_0, sqrt_1, atan2_0_1. ring.
  - unfold in_bbox, delta_lon_of. cbn. rewrite Hr, cos_PI2.
    rewrite Rmax_right by lra. lra.
Qed.

(** ** Properties of the stable sort and of the slice *)

Section SortByKey.
Context {A : Type} (key : A -> R).

Lemma insert_by_key_perm (x : A) (l : list A) :
  insert_by_key key x l ≡ₚ x :: l.
Proof.
  induction l as [|y l IH]; cbn; [reflexivity|].
  destruct (decide (key x <= key y)); [reflexivity|].
  rewrite IH. apply perm_swap.
Qed.

Lemma sort_by_key_perm (l : list A) : sort_by_key key l ≡ₚ l.
Proof.
  induction l as [|x l IH]; cbn; [reflexivity|].
  rewrite insert_by_key_perm. now rewrite IH.
Qed.

Lemma sort_by_key_length (l : list A) :
  length (sort_by_key key l) = length l.
Proof. apply Permutation_length, sort_by_key_perm. Qed.

Lemma insert_by_key_sorted (x : A) (l : list A) :
  StronglySorted (key_le key) l -> StronglySorted (key_le key) (insert_by_key key x l).
Proof.
  induction 1 as [|y l Hl IH Hy]; cbn.
  - repeat constructor.
  - destruct (decide (key x <= key y)) as [Hxy|Hxy].
    + constructor; [now constructor|].
      constructor; [exact Hxy|].
      eapply Forall_impl; [exact Hy|]. unfold key_le. intros z Hz. cbn in Hz. lra.
    + constructor; [exact IH|].
      rewrite insert_by_key_perm. constructor; [|exact Hy].
      unfold key_le. lra.
Qed.

Lemma sort_by_key_sorted (l : list A) :
  StronglySorted (key_le key) (sort_by_key key l).
Proof.
  induction l as [|x l IH]; cbn; [constructor|].
  now apply insert_by_key_sorted.
Qed.

(** Stability: among the elements of one key value, the order of the
    input is kept. *)
Lemma insert_by_key_filter (d : R) (x : A) (l : list A) :
  filter (fun a => key a = d) (insert_by_key key x l)
  = filter (fun a => key a = d) (x :: l).
Proof.
  induction l as [|y l IH]; cbn; [reflexivity|].
  destruct (decide (key x <= key y)) as [Hxy|Hxy]; [reflexivity|].
  rewrite filter_cons, IH, !filter_cons.
  destruct (decide (key y = d)) as [Hy|Hy];
    destruct (decide (key x = d)) as [Hx|Hx]; try reflexivity.
  exfalso. lra.
Qed.

Lemma sort_by_key_stable (d : R) (l : list A) :
  filter (fun a => key a = d) (sort_by_key key l)
  = filter (fun a => key a = d) l.
Proof.
  induction l as [|x l IH]; cbn; [reflexivity|].
  rewrite insert_by_key_filter, !filter_cons.
  change (foldr (insert_by_key key) [] l) with (sort_by_key key l).
  rewrite IH. reflexivity.
Qed.

Lemma StronglySorted_take (n : nat) (l : list A) :
  StronglySorted (key_le key) l -> StronglySorted (key_le key) (take n l).
Proof.
  intros Hl. revert n. induction Hl as [|y l Hl IH Hy]; intros [|n]; cbn;
    try constructor.
  - apply IH.
  - apply Forall_take. exact Hy.
Qed.

End SortByKey.

Lemma slice_to_take {A} (n : Z) (l : list A) :
  (0 <= n)%Z -> slice_to n l = take (Z.to_nat n) l.
Proof. intros Hn. unfold slice_to. now rewrite decide_True. Qed.

Lemma slice_to_prefix {A} (n : Z) (l : list A) : slice_to n l `prefix_of` l.
Proof. unfold slice_to. destruct (decide _); apply prefix_take. Qed.

Lemma filter_prefix {A} (P : A -> Prop) `{!forall a, Decision (P a)}
    (l1 l2 : list A) :
  l1 `prefix_of` l2 -> filter P l1 `prefix_of` filter P l2.
Proof. intros [k ->]. rewrite filter_app. now apply prefix_app_r. Qed.

(** ** Properties of the candidate search *)

Lemma collect_results_ok (lat lon : R) (images : list raw_image) :
  Forall id_if_usable images ->
  exists all, collect_results lat lon images = Ok all
    /\ Forall (fun c => distance_m c
                        = haversine_m lat lon (cand_lat c) (cand_lon c)) all.
Proof.
  induction 1 as [|img images Himg _ IH]; cbn.
  - exists []. split; [reflexivity|constructor].
  - destruct IH as (rest & Hrest & Hdist).
    destruct (usable_coords (raw_coordinates img)) as [[img_lon img_lat]|] eqn:Hc.
    + rewrite haversine_distance_m_total. cbn.
      destruct (Himg ltac:(eauto)) as [i Hi].
      unfold getitem_id. rewrite Hi. cbn. rewrite Hrest. cbn.
      eexists. split; [reflexivity|]. constructor; [reflexivity|exact Hdist].
    + exists rest. split; assumption.
Qed.

(** C2, as the code has it: for a count that is not negative the search
    returns at most that many candidates, in non-decreasing order of
    distance; candidates at one distance are not ordered by id but keep the
    order in which the source listed them. *)
Theorem find_nearest_sorted_stable
    (source : RecordSource) (lat lon : R) (n : Z) (radius_m : R)
    (data : option (list raw_image)) :
  (0 <= n)%Z ->
  (forall b, bbox_from_point lat lon radius_m = Ok b -> source b = Ok data) ->
  Forall id_if_usable (default [] data) ->
  exists res all,
    find_nearest_vr_images source lat lon n radius_m = Ok res
    /\ collect_results lat lon (default [] data) = Ok all
    /\ (length res <= Z.to_nat n)%nat
    /\ StronglySorted (key_le distance_m) res
    /\ forall d, filter (fun c => distance_m c = d) res
                 `prefix_of` filter (fun c => distance_m c = d) all.
Proof.
  intros Hn Hsrc Hids.
  destruct (collect_results_ok lat lon _ Hids) as (all & Hall & _).
  unfold find_nearest_vr_images.
  rewrite bbox_from_point_ok. cbn.
  rewrite (Hsrc _ (bbox_from_point_ok lat lon radius_m)). cbn.
  destruct (default [] data) as [|img images] eqn:Himgs.
  - exists [], all. cbn in Hall. injection Hall as <-.
    repeat split; cbn; try constructor; try lia. intros d. reflexivity.
  - rewrite Hall. cbn. eexists. exists all. split; [reflexivity|].
    split; [reflexivity|]. rewrite slice_to_take by exact Hn.
    split; [rewrite length_take; lia|].
    split; [apply StronglySorted_take, sort_by_key_sorted|].
    intros d. rewrite <- (sort_by_key_stable distance_m d all).
    apply filter_prefix, prefix_take.
Qed.

Lemma find_nearest_sorted_stable_witness :
  exists res all,
    find_nearest_vr_images tie_source 0 0 5 100 = Ok res
    /\ collect_results 0 0 (default [] (Some tie_records)) = Ok all
    /\ (length res <= Z.to_nat 5)%nat
    /\ StronglySorted (key_le distance_m) res
    /\ forall d, filter (fun c => distance_m c = d) res
                 `prefix_of` filter (fun c => distance_m c = d) all.
Proof.
  apply (find_nearest_sorted_stable tie_source 0 0 5 100 (Some tie_records)).
  - lia.
  - reflexivity.
  - repeat constructor; intros _; cbn; eauto.
Defined.

Lemma find_nearest_tie_source (n : Z) :
  find_nearest_vr_images tie_source 0 0 n 100
  = Ok (slice_to n [tie_candidate "b"; tie_candidate "a"]).
Proof.
  unfold find_nearest_vr_images. rewrite bbox_from_point_ok.
  unfold tie_source. cbn [mbind result_bind].
  change (default [] (Some tie_records)) with tie_records.
  unfold tie_records. cbn [collect_results usable_coords raw_coordinates].
  rewrite !haversine_distance_m_total, haversine_m_same.
  cbn. real_cases. reflexivity.
Qed.

(** C2 fails as stated: two candidates at the same distance come back with
    id ["b"] before id ["a"], the order of the source; and for the count -1
    one candidate is returned, which is more than the count. *)
Lemma find_nearest_ties_keep_source_order :
  exists c1 c2,
    find_nearest_vr_images tie_source 0 0 5 100 = Ok [c1; c2]
    /\ distance_m c1 = distance_m c2
    /\ cand_id c1 = "b" /\ cand_id c2 = "a"
    /\ String.ltb (cand_id c2) (cand_id c1) = true
    /\ find_nearest_vr_images tie_source 0 0 (-1) 100 = Ok [c1]
    /\ (-1 < Z.of_nat (length [c1]))%Z.
Proof.
  exists (tie_candidate "b"), (tie_candidate "a").
  rewrite !find_nearest_tie_source. repeat split; reflexivity.
Qed.

(** On the [index] route the count is at least 1, so the bound on the
    number of candidates holds for every count the form submits. *)
Lemma index_search_bounded
    (source : RecordSource) (lat lon : R) (n : Z) (res : list candidate) :
  index_search source lat lon n = Ok res ->
  (length res <= Z.to_nat (index_count n))%nat.
Proof.
  unfold index_search, find_nearest_vr_images.
  rewrite bbox_from_point_ok. cbn [mbind result_bind].
  destruct (source _) as [data|e]; [|discriminate]. cbn [mbind result_bind].
  destruct (default [] data) as [|img images]; [intros [= <-]; cbn; lia|].
  destruct (collect_results lat lon (img :: images)) as [all|e];
    [|discriminate].
  cbn [mbind result_bind]. intros [= <-].
  rewrite slice_to_take by (unfold index_count; destruct (decide _); lia).
  rewrite length_take. lia.
Qed.

(** *** The arc is at least the chord *)

Lemma atan2_quadrant_range (y x : R) :
  0 <= x -> 0 <= y -> 0 <= math.atan2 y x <= PI / 2.
Proof.
  intros Hx Hy. pose proof PI_RGT_0 as Hpi. unfold math.atan2.
  destruct (Rlt_dec 0 x) as [Hx0|Hx0].
  - pose proof (atan_bound (y / x)) as [_ Hub]. split; [|lra].
    destruct (Req_dec_T y 0) as [->|Hy0].
    + unfold Rdiv. rewrite Rmult_0_l, atan_0. lra.
    + rewrite <- atan_0. left. apply atan_increasing.
      apply Rdiv_lt_0_compat; lra.
  - destruct (Rlt_dec x 0); [lra|].
    destruct (Rlt_dec 0 y); [lra|]. destruct (Rlt_dec y 0); lra.
Qed.

Lemma sin_atan2_unit (y x : R) :
  0 <= x -> 0 <= y -> x * x + y * y = 1 -> sin (math.atan2 y x) = y.
Proof.
  intros Hx Hy Hu. unfold math.atan2.
  destruct (Rlt_dec 0 x) as [Hx0|Hx0].
  - rewrite sin_atan.
    assert (E : 1 + (y / x)² = (/ x)²).
    { unfold Rsqr. transitivity ((x * x + y * y) * (/ x * / x)).
      - field. lra.
      - rewrite Hu. ring. }
    rewrite E, sqrt_Rsqr by (left; apply Rinv_0_lt_compat; exact Hx0).
    field. lra.
  - assert (x = 0) by lra. subst x.
    assert (y = 1) by nra. subst y.
    destruct (Rlt_dec 0 0); [lra|]. destruct (Rlt_dec 0 1); [|lra].
    apply sin_PI2.
Qed.

Lemma atan_le (x y : R) : x <= y -> atan x <= atan y.
Proof. intros [H | ->]; [left; now apply atan_increasing | lra]. Qed.

Lemma sin_le_x (x : R) : 0 <= x -> sin x <= x.
Proof.
  intros [Hx|<-]; [left; now apply sin_lt_x | rewrite sin_0; lra].
Qed.

Lemma haversine_m_ge_chord (lat1 lon1 lat2 lon2 : R) :
  6371000 * (2 * sqrt (haversine_a lat1 lon1 lat2 lon2))
  <= haversine_m lat1 lon1 lat2 lon2.
Proof.
  unfold haversine_m. cbv zeta.
  destruct (haversine_a_range lat1 lon1 lat2 lon2) as [H0 H1].
  set (a := haversine_a lat1 lon1 lat2 lon2) in *.
  assert (Hs : 0 <= sqrt a) by apply sqrt_pos.
  assert (Hc : 0 <= sqrt (1 - a)) by apply sqrt_pos.
  assert (Hu : sqrt (1 - a) * sqrt (1 - a) + sqrt a * sqrt a = 1)
    by (rewrite !sqrt_sqrt; lra).
  pose proof (atan2_quadrant_range _ _ Hc Hs) as [Hr _].
  pose proof (sin_le_x _ Hr) as Hsin.
  rewrite (sin_atan2_unit _ _ Hc Hs Hu) in Hsin. lra.
Qed.

Lemma sin_small_lb (x : R) :
  155 / 10000000 <= x <= 1 -> 12 / 1000000 <= sin x.
Proof.
  intros [H0 H1]. pose proof PI2_1 as Hpi.
  assert (Hm : sin (155 / 10000000) <= sin x) by (apply sin_incr_1; lra).
  pose proof (SIN (155 / 10000000) ltac:(lra) ltac:(lra)) as [Hlb _].
  unfold sin_lb, sin_approx, sin_term, sum_f_R0 in Hlb.
  simpl in Hlb. lra.
Qed.

Lemma corner_distance : 100 < haversine_m 0 0 (89 / 100000) (89 / 100000).
Proof.
  eapply Rlt_le_trans; [|apply haversine_m_ge_chord].
  rewrite haversine_a_dot.
  replace (math.radians 0) with 0 by (unfold math.radians; ring).
  rewrite Rminus_0_r, sin_0, cos_0.
  set (x := math.radians (89 / 100000)).
  assert (Hx : 155 / 10000000 <= x <= 1).
  { unfold x, math.radians. pose proof PI_bounds. lra. }
  pose proof (sin_small_lb x Hx) as Hs.
  assert (Hsc : cos x * cos x = 1 - sin x * sin x).
  { pose proof (sin2_cos2 x) as H. unfold Rsqr in H. lra. }
  assert (Ha : (8 / 1000000) ^ 2 <= (1 - (0 * sin x + 1 * cos x * cos x)) / 2)
    by nra.
  apply sqrt_le_1_alt in Ha. rewrite sqrt_pow2 in Ha by lra. lra.
Qed.

(** C1 does not hold of the code: the loop keeps every record with usable
    coordinates, whatever its distance.  For the centre (0, 0), radius
    100 m, a source record at (0.00089, 0.00089) lies inside the bounding
    box and is returned with a distance above 100 m. *)
Theorem find_nearest_keeps_record_beyond_radius :
  exists b c,
    bbox_from_point 0 0 100 = Ok b
    /\ in_bbox b (89 / 100000) (89 / 100000)
    /\ find_nearest_vr_images corner_source 0 0 5 100 = Ok [c]
    /\ cand_id c = "corner"
    /\ 100 < distance_m c.
Proof.
  eexists. eexists. split; [apply bbox_from_point_ok|]. split.
  { unfold in_bbox, delta_lat_of, delta_lon_of, math.radians. cbn.
    rewrite Rmult_0_l, cos_0, Rmax_left by lra. lra. }
  unfold find_nearest_vr_images. rewrite bbox_from_point_ok.
  unfold corner_source. cbn [mbind result_bind].
  change (default [] (Some corner_records)) with corner_records.
  unfold corner_records. cbn [collect_results usable_coords raw_coordinates].
  rewrite haversine_distance_m_total. cbn.
  rewrite slice_to_take by lia. cbn.
  split; [reflexivity|]. cbn. split; [reflexivity|]. apply corner_distance.
Qed.

(** ** Properties of the greedy separation *)

Lemma candidate_distance_sym (a b : candidate) :
  candidate_distance a b = candidate_distance b a.
Proof. apply haversine_m_sym. Qed.


Section Select.
Variables (min_sep : R) (max_results : nat).

Lemma select_separated_extends (acc cands : list candidate) :
  exists picked,
    select_separated min_sep max_results acc cands = acc ++ picked
    /\ picked `sublist_of` cands.
Proof.
  revert acc. induction cands as [|c cands IH]; intros acc; cbn.
  - exists []. split; [now rewrite app_nil_r | constructor].
  - destruct (decide (max_results <= length acc)%nat).
    { exists []. split; [now rewrite app_nil_r | apply sublist_nil_l]. }
    destruct (decide (Forall _ acc)).
    + destruct (IH (acc ++ [c])) as (picked & -> & Hsub).
      exists (c :: picked). split; [now rewrite <- app_assoc|].
      now constructor.
    + destruct (IH acc) as (picked & -> & Hsub).
      exists picked. split; [reflexivity | now constructor].
Qed.



(** A candidate that was visited and left out is within [min_sep] of an
    accepted one, unless the quota was reached. *)
Lemma select_separated_greedy (acc cands : list candidate) (c : candidate) :
  c ∈ cands ->
  c ∈ select_separated min_sep max_results acc cands
  \/ (max_results <= length (select_separated min_sep max_results acc cands))%nat
  \/ exists a, a ∈ select_separated min_sep max_results acc cands
               /\ candidate_distance a c <= min_sep.
Proof.
  revert acc. induction cands as [|c' cands IH]; intros acc Hin; cbn.
  { now apply elem_of_nil in Hin. }
  destruct (decide (max_results <= length acc)%nat) as [Hfull|Hfull].
  { right. left. exact Hfull. }
  apply elem_of_cons in Hin as [->|Hin].
  - destruct (decide (Forall _ acc)) as [Hc|Hc].
    + left. destruct (select_separated_extends (acc ++ [c']) cands)
        as (picked & -> & _).
      rewrite !elem_of_app, list_elem_of_singleton. auto.
    + right. right. apply not_Forall_Exists in Hc; [|apply _].
      apply Exists_exists in Hc as (a & Ha & Hna). cbn in Hna.
      exists a. split; [|lra].
      destruct (select_separated_extends acc cands) as (picked & -> & _).
      apply elem_of_app. now left.
  - destruct (decide (Forall _ acc)); now apply IH.
Qed.



End Select.



(** The separation is symmetric: it holds of a pair in either order. *)
Lemma separated_both_ways (min_sep : R) (l : list candidate)
    (i j : nat) (a b : candidate) :
  separated min_sep l -> i <> j -> l !! i = Some a -> l !! j = Some b ->
  min_sep < candidate_distance a b.
Proof.
  intros Hl Hij Ha Hb. destruct (decide (i < j)%nat) as [Hlt|Hge].
  - exact (Hl i j a b Hlt Ha Hb).
  - rewrite candidate_distance_sym. apply (Hl j i b a); [lia|assumption..].
Qed.

(** Of two candidates at the same place only the first is accepted. *)
Lemma greedy_select_same_place :
  greedy_select 20 3 [tie_candidate "b"; tie_candidate "a"]
  = [tie_candidate "b"].
Proof.
  unfold greedy_select, index_count. rewrite decide_False by lia.
  change (Z.to_nat 3) with 3%nat. cbn [select_separated length].
  rewrite decide_False by lia. rewrite decide_True by constructor.
  cbn [app select_separated length].
  rewrite decide_False by lia. rewrite decide_False; [reflexivity|].
  intros H. apply Forall_cons in H as [H _].
  unfold candidate_distance in H. cbn in H.
  rewrite haversine_m_same in H. lra.
Qed.

(** ** Properties of the panorama cache *)

Lemma out_path_not_pano_path (image_id name : string) :
  out_path_of image_id name <> pano_path_of image_id.
Proof. unfold out_path_of, rel_path_of, pano_path_of. intros H. discriminate H. Qed.

(** When the panorama file exists the world is left as it is: nothing is
    requested and nothing is written. *)
Lemma load_pano_cached (E : env) (image_id image_url : string)
    (w : world) (content : list byte) :
  fs w !! pano_path_of image_id = Some content ->
  load_pano E image_id image_url w = (Ok (imdecode E content), w).
Proof.
  intros Hf. unfold load_pano.
  rewrite decide_True by (rewrite Hf; eauto).
  unfold mbind, M_bind, mret, M_ret, imread. now rewrite Hf.
Qed.

(** A call that returns leaves the panorama file in place. *)
Lemma load_pano_returns (E : env) (image_id image_url : string)
    (w w1 : world) (r : option image) :
  load_pano E image_id image_url w = (Ok r, w1) ->
  exists content,
    fs w1 !! pano_path_of image_id = Some content /\ r = imdecode E content.
Proof.
  unfold load_pano.
  destruct (decide (is_Some (fs w !! pano_path_of image_id))) as [[c Hc]|Hn].
  - unfold mbind, M_bind, mret, M_ret, imread. rewrite Hc. cbn.
    intros [= <- <-]. eauto.
  - unfold mbind, M_bind, download, imread.
    destruct (http_get E image_url) as [|[|] chunks [|]]; cbn; try discriminate.
    rewrite lookup_insert_eq. cbn. intros [= <- <-]. cbn.
    rewrite lookup_insert_eq. eauto.
Qed.

Lemma render_view_frame (E : env) (image_id : string) (pano : image)
    (results : gmap string string) (yaw : Z) (w : world) :
  render_view E image_id pano results yaw w
  = match perspective_from_equirect pano (IZR yaw) (IZR pitch_deg)
            (IZR fov_deg) out_w out_h with
    | Ok view =>
        (Ok (<[view_name yaw :=
                 url_for_static E (rel_path_of image_id (view_name yaw))]>
               results),
         {| fs := <[out_path_of image_id (view_name yaw) := imencode E view]>
                    (fs w);
            net_log := net_log w |})
    | Raise e => (Raise e, w)
    end.
Proof.
  unfold render_view, mbind, M_bind, lift, imwrite, mret, M_ret.
  destruct (perspective_from_equirect _ _ _ _ _ _); reflexivity.
Qed.

Lemma render_views_frame (E : env) (image_id : string) (pano : image)
    (yaws : list Z) (results : gmap string string) (w : world) :
  net_log (render_views E image_id pano results yaws w).2 = net_log w
  /\ fs (render_views E image_id pano results yaws w).2
       !! pano_path_of image_id
     = fs w !! pano_path_of image_id.
Proof.
  revert results w. induction yaws as [|yaw yaws IH]; intros results w; cbn.
  - split; reflexivity.
  - unfold mbind, M_bind. rewrite render_view_frame.
    destruct (perspective_from_equirect _ _ _ _ _ _) as [view|e]; cbn.
    + destruct (IH (<[view_name yaw :=
                        url_for_static E (rel_path_of image_id (view_name yaw))]>
                      results)
                   {| fs := <[out_path_of image_id (view_name yaw)
                              := imencode E view]> (fs w);
                      net_log := net_log w |}) as [Hn Hf].
      split; [exact Hn|]. rewrite Hf. cbn.
      apply lookup_insert_ne, out_path_not_pano_path.
    + split; reflexivity.
Qed.

(** The dictionary returned does not depend on the files present. *)
Lemma render_views_result (E : env) (image_id : string) (pano : image)
    (yaws : list Z) (results : gmap string string) (w v : world) :
  (render_views E image_id pano results yaws w).1
  = (render_views E image_id pano results yaws v).1.
Proof.
  revert results w v. induction yaws as [|yaw yaws IH]; intros results w v; cbn.
  - reflexivity.
  - unfold mbind, M_bind. rewrite !render_view_frame.
    destruct (perspective_from_equirect _ _ _ _ _ _) as [view|e]; cbn.
    + apply IH.
    + reflexivity.
Qed.

(** C7: the fetch is idempotent per image id.  When the panorama file of
    the id exists, it is read and decoded and the world, with its log of
    requests, is unchanged; a load that returned returns the same asset
    again without a request; and a second run of the whole view generation
    after one that returned gives the same result, requests nothing and
    leaves the panorama file as it was. *)
Theorem load_pano_idempotent (E : env) (image_id image_url : string) :
  (forall w content,
     fs w !! pano_path_of image_id = Some content ->
     load_pano E image_id image_url w = (Ok (imdecode E content), w))
  /\ (forall w r w1,
        load_pano E image_id image_url w = (Ok r, w1) ->
        load_pano E image_id image_url w1 = (Ok r, w1))
  /\ (forall w r w1,
        generate_normal_views_for_pano E image_id image_url w = (Ok r, w1) ->
        exists w2,
          generate_normal_views_for_pano E image_id image_url w1 = (Ok r, w2)
          /\ net_log w2 = net_log w1
          /\ fs w2 !! pano_path_of image_id = fs w1 !! pano_path_of image_id).
Proof.
  split; [intros w content; apply load_pano_cached|]. split.
  - intros w r w1 H. apply load_pano_returns in H as (content & Hc & ->).
    now apply load_pano_cached.
  - intros w r w1. unfold generate_normal_views_for_pano. unfold mbind at 1, M_bind at 1.
    destruct (load_pano E image_id image_url w) as [[p|e] w0] eqn:Hload;
      [|discriminate].
    apply load_pano_returns in Hload as (content & Hc & ->).
    destruct (imdecode E content) as [pano|] eqn:Hdec.
    + intros Hr.
      pose proof (render_views_frame E image_id pano yaw_list ∅ w0) as [_ Hf0].
      rewrite Hr in Hf0. cbn [snd] in Hf0. rewrite Hc in Hf0.
      unfold mbind, M_bind. rewrite (load_pano_cached _ _ _ _ _ Hf0), Hdec.
      pose proof (render_views_frame E image_id pano yaw_list ∅ w1) as [Hn Hf].
      pose proof (render_views_result E image_id pano yaw_list ∅ w1 w0) as Hres.
      rewrite Hr in Hres.
      destruct (render_views E image_id pano ∅ yaw_list w1) as [r2 w2].
      cbn [fst snd] in *. subst r2. eauto.
    + unfold mret, M_ret. intros [= <- <-].
      unfold mbind, M_bind. rewrite (load_pano_cached _ _ _ _ _ Hc), Hdec.
      eexists. split; [reflexivity|]. split; reflexivity.
Qed.

Lemma load_pano_downloads (E : env) (image_id image_url : string)
    (w : world) (chunks : list (list byte)) :
  fs w !! pano_path_of image_id = None ->
  http_get E image_url = Response true chunks true ->
  load_pano E image_id image_url w
  = (Ok (imdecode E (concat (filter (fun chunk => chunk ≠ []) chunks))),
     {| fs := <[pano_path_of image_id :=
                  concat (filter (fun chunk => chunk ≠ []) chunks)]> (fs w);
        net_log := net_log w ++ [image_url] |}).
Proof.
  intros Hf Hget. unfold load_pano.
  rewrite decide_False by (rewrite Hf; intros [? [=]]).
  unfold mbind, M_bind, download, imread. rewrite Hget. cbn.
  now rewrite lookup_insert_eq.
Qed.

(** ** Shape of the reprojected view *)

Lemma linspace_ok (start stop : R) (num : Z) :
  (0 <= num)%Z ->
  exists xs, np.linspace start stop num = Ok xs
             /\ length xs = Z.to_nat num.
Proof.
  intros Hn. unfold np.linspace. rewrite decide_False by lia.
  eexists. split; [reflexivity|]. now rewrite length_map, length_seq.
Qed.

Lemma meshgrid_shape (xs ys : list R) :
  grid_shape (np.meshgrid xs ys).1 (length ys) (length xs)
  /\ grid_shape (np.meshgrid xs ys).2 (length ys) (length xs).
Proof.
  unfold np.meshgrid, grid_shape. cbn. rewrite !length_map.
  repeat split.
  - apply Forall_fmap, Forall_true. reflexivity.
  - apply Forall_fmap, Forall_true. intros y. cbn. apply length_map.
Qed.

Lemma zip_grid_shape {A B C} (f : A -> B -> C)
    (g1 : list (list A)) (g2 : list (list B)) (h w : nat) :
  grid_shape g1 h w -> grid_shape g2 h w ->
  grid_shape (np.zip_grid f g1 g2) h w.
Proof.
  unfold grid_shape, np.zip_grid. intros [H1 F1] [H2 F2]. split.
  - rewrite length_zip_with. lia.
  - clear H1 H2. revert g2 F2.
    induction F1 as [|r1 g1 Hr1 _ IH]; intros g2 F2; [constructor|].
    destruct F2 as [|r2 g2 Hr2 F2]; cbn; [constructor|].
    constructor; [|now apply IH]. rewrite length_zip_with. lia.
Qed.

Lemma zip_grid_Forall {A B C} (P : C -> Prop) (f : A -> B -> C)
    (g1 : list (list A)) (g2 : list (list B)) :
  (forall a b, P (f a b)) ->
  Forall (Forall P) (np.zip_grid f g1 g2).
Proof.
  intros Hf. unfold np.zip_grid. revert g2.
  induction g1 as [|r1 g1 IH]; intros [|r2 g2]; cbn; try constructor;
    [|apply IH].
  clear IH. revert r2. induction r1 as [|a r1 IH]; intros [|b r2]; cbn;
    try constructor; [apply Hf | apply IH].
Qed.

Lemma sample_channels (src : image) (sx sy : R) :
  length (cv2.sample src sx sy) = shape_c src.
Proof. unfold cv2.sample. now rewrite length_map, length_seq. Qed.

Lemma well_shaped_shape (pano : image) (h w c : nat) :
  well_shaped pano h w c -> (0 < h)%nat -> (0 < w)%nat ->
  shape_h pano = h /\ shape_w pano = w /\ shape_c pano = c.
Proof.
  intros [Hh Hrows] Hh0 Hw0. unfold shape_h, shape_w, shape_c.
  split; [exact Hh|].
  destruct Hrows as [|row rows [Hrow Hpx] _]; cbn in *; [lia|].
  split; [exact Hrow|].
  destruct Hpx as [|px row Hpx _]; cbn in *; [lia|exact Hpx].
Qed.

Lemma tan_half_fov_pos (fov_deg : R) :
  0 < fov_deg < 180 -> 0 < tan (math.radians fov_deg / 2).
Proof.
  intros [H0 H1]. pose proof PI_RGT_0 as Hpi. unfold math.radians.
  apply tan_gt_0.
  - assert (0 < fov_deg * (PI / 180)) by (apply Rmult_lt_0_compat; lra). lra.
  - assert (fov_deg * (PI / 180) < 180 * (PI / 180))
      by (apply Rmult_lt_compat_r; lra).
    lra.
Qed.

Lemma grid_shape_head {A} (g : list (list A)) (h w : nat) :
  grid_shape g h w -> (0 < h)%nat -> length (default [] (head g)) = w.
Proof.
  intros [Hlen Hrows] Hh.
  destruct Hrows as [|row rows Hrow _]; [cbn in Hlen; lia|exact Hrow].
Qed.

(** [cv2.remap] returns for maps that are not empty, when the source and
    the maps are below the size limit. *)
Lemma remap_ok (src : image) (map_x map_y : list (list R)) (h w : nat) :
  grid_shape map_x h w -> (0 < h)%nat -> (0 < w)%nat ->
  within_remap_limit src (Z.of_nat w) (Z.of_nat h) ->
  cv2.remap src map_x map_y = Ok (np.zip_grid (cv2.sample src) map_x map_y).
Proof.
  intros G Hh Hw (L1 & L2 & L3 & L4).
  pose proof (grid_shape_head _ _ _ G Hh) as Hhd.
  destruct G as [Hlen Hrows]. unfold cv2.remap. rewrite decide_False.
  - rewrite decide_True; [reflexivity|]. rewrite Hhd, Hlen. auto.
  - intros [Hnil|Hnil].
    + rewrite Hnil in Hlen. cbn in Hlen. lia.
    + destruct map_x as [|row rows]; [discriminate|].
      cbn in Hnil, Hhd. injection Hnil as ->. cbn in Hhd. lia.
Qed.


Lemma remap_too_large (src : image) (map_x map_y : list (list R))
    (h w : nat) :
  grid_shape map_x h w -> (0 < h)%nat ->
  ~ within_remap_limit src (Z.of_nat w) (Z.of_nat h) ->
  cv2.remap src map_x map_y = Raise CvError.
Proof.
  intros G Hh Hn. pose proof (grid_shape_head _ _ _ G Hh) as Hhd.
  destruct G as [Hlen Hrows]. unfold cv2.remap.
  destruct (decide _); [reflexivity|].
  rewrite decide_False; [reflexivity|].
  rewrite Hhd, Hlen. exact Hn.
Qed.

(** The projection is [cv2.remap] applied to the maps. *)
Lemma perspective_from_equirect_remap (pano : image)
    (yaw_deg pitch_deg fov_deg : R) (out_w out_h : Z) :
  perspective_from_equirect pano yaw_deg pitch_deg fov_deg out_w out_h
  = (maps ← equirect_maps (shape_h pano) (shape_w pano)
               yaw_deg pitch_deg fov_deg out_w out_h;
     cv2.remap pano maps.1 maps.2).
Proof.
  unfold perspective_from_equirect, equirect_maps. cbv zeta.
  destruct (math.div _ _) as [f|]; [|reflexivity]. cbn [mbind result_bind].
  destruct (np.linspace (- IZR out_w / 2) _ _) as [xs|]; [|reflexivity].
  cbn [mbind result_bind].
  destruct (np.linspace (- IZR out_h / 2) _ _) as [ys|]; [|reflexivity].
  cbn [mbind result_bind]. now destruct (np.meshgrid xs ys).
Qed.

(** For a field of view between 0 and 180 degrees and sizes that are not
    negative the maps are computed, with one row per output row and one
    entry per output column. *)
Lemma equirect_maps_ok (h_in w_in : nat)
    (yaw_deg pitch_deg fov_deg : R) (out_w out_h : Z) :
  0 < fov_deg < 180 -> (0 <= out_w)%Z -> (0 <= out_h)%Z ->
  exists map_x map_y,
    equirect_maps h_in w_in yaw_deg pitch_deg fov_deg out_w out_h
    = Ok (map_x, map_y)
    /\ grid_shape map_x (Z.to_nat out_h) (Z.to_nat out_w)
    /\ grid_shape map_y (Z.to_nat out_h) (Z.to_nat out_w).
Proof.
  intros Hfov Hw Hh. unfold equirect_maps. cbv zeta.
  pose proof (tan_half_fov_pos fov_deg Hfov) as Htan.
  unfold math.div at 1.
  destruct (Req_dec_T (tan (math.radians fov_deg / 2)) 0) as [H0|_]; [lra|].
  cbn [mbind result_bind].
  destruct (linspace_ok (- IZR out_w / 2) (IZR out_w / 2) out_w) as (xs & -> & Hxs);
    [lia|].
  destruct (linspace_ok (- IZR out_h / 2) (IZR out_h / 2) out_h) as (ys & -> & Hys);
    [lia|].
  cbn [mbind result_bind].
  destruct (meshgrid_shape xs ys) as [Gx Gy].
  destruct (np.meshgrid xs ys) as [x_grid y_grid]. cbn [fst snd] in Gx, Gy.
  rewrite Hxs, Hys in Gx, Gy.
  eexists _, _. split; [reflexivity|]. split; now apply zip_grid_shape.
Qed.

(** For a field of view between 0 and 180 degrees, a positive output
    resolution and sizes below the limit of [cv2.remap], the projection
    returns the samples of the panorama at the coordinates of the maps. *)
Lemma perspective_from_equirect_maps (pano : image)
    (yaw_deg pitch_deg fov_deg : R) (out_w out_h : Z) :
  0 < fov_deg < 180 -> (0 < out_w)%Z -> (0 < out_h)%Z ->
  within_remap_limit pano out_w out_h ->
  exists map_x map_y,
    equirect_maps (shape_h pano) (shape_w pano)
      yaw_deg pitch_deg fov_deg out_w out_h = Ok (map_x, map_y)
    /\ grid_shape map_x (Z.to_nat out_h) (Z.to_nat out_w)
    /\ grid_shape map_y (Z.to_nat out_h) (Z.to_nat out_w)
    /\ perspective_from_equirect pano yaw_deg pitch_deg fov_deg out_w out_h
       = Ok (np.zip_grid (cv2.sample pano) map_x map_y).
Proof.
  intros Hfov Hw Hh Hlim.
  destruct (equirect_maps_ok (shape_h pano) (shape_w pano)
              yaw_deg pitch_deg fov_deg out_w out_h Hfov)
    as (map_x & map_y & Hmaps & Gx & Gy); [lia|lia|].
  exists map_x, map_y. do 3 (split; [assumption|]).
  rewrite perspective_from_equirect_remap, Hmaps. cbn [mbind result_bind fst snd].
  apply (remap_ok pano map_x map_y _ _ Gx); [lia|lia|].
  now rewrite !Z2Nat.id by lia.
Qed.

(** Then the view has one row per output row, one pixel per output column
    and the channels of the panorama. *)
Lemma perspective_from_equirect_ok (pano : image)
    (yaw_deg pitch_deg fov_deg : R) (out_w out_h : Z) :
  0 < fov_deg < 180 -> (0 < out_w)%Z -> (0 < out_h)%Z ->
  within_remap_limit pano out_w out_h ->
  exists view,
    perspective_from_equirect pano yaw_deg pitch_deg fov_deg out_w out_h
    = Ok view
    /\ grid_shape view (Z.to_nat out_h) (Z.to_nat out_w)
    /\ Forall (Forall (fun px : pixel => length px = shape_c pano)) view.
Proof.
  intros Hfov Hw Hh Hlim.
  destruct (perspective_from_equirect_maps pano yaw_deg pitch_deg fov_deg
              out_w out_h Hfov Hw Hh Hlim)
    as (map_x & map_y & _ & Gx & Gy & ->).
  eexists. split; [reflexivity|]. split.
  - now apply zip_grid_shape.
  - apply zip_grid_Forall. intros. apply sample_channels.
Qed.

Lemma perspective_from_equirect_too_large (pano : image)
    (yaw_deg pitch_deg fov_deg : R) (out_w out_h : Z) :
  0 < fov_deg < 180 -> (0 < out_w)%Z -> (0 < out_h)%Z ->
  ~ within_remap_limit pano out_w out_h ->
  perspective_from_equirect pano yaw_deg pitch_deg fov_deg out_w out_h
  = Raise CvError.
Proof.
  intros Hfov Hw Hh Hlim.
  destruct (equirect_maps_ok (shape_h pano) (shape_w pano)
              yaw_deg pitch_deg fov_deg out_w out_h Hfov)
    as (map_x & map_y & Hmaps & Gx & _); [lia|lia|].
  rewrite perspective_from_equirect_remap, Hmaps. cbn [mbind result_bind fst snd].
  apply (remap_too_large pano map_x map_y _ _ Gx); [lia|].
  now rewrite !Z2Nat.id by lia.
Qed.



Lemma head_replicate {A} (n : nat) (x : A) :
  (0 < n)%nat -> head (replicate n x) = Some x.
Proof. destruct n; [lia | reflexivity]. Qed.

Lemma huge_pano_shape :
  well_shaped huge_pano (Z.to_nat 16384) (Z.to_nat 32768) 3
  /\ shape_w huge_pano = Z.to_nat 32768.
Proof.
  unfold huge_pano. split.
  - split; [apply length_replicate|]. apply Forall_replicate.
    split; [apply length_replicate|]. now apply Forall_replicate.
  - unfold shape_w. rewrite head_replicate by lia. apply length_replicate.
Qed.

Lemma huge_pano_too_large (out_w out_h : Z) :
  ~ within_remap_limit huge_pano out_w out_h.
Proof.
  intros (_ & _ & H & _). destruct huge_pano_shape as [_ Hw].
  rewrite Hw in H. unfold cv2.SHRT_MAX in H. lia.
Qed.


(** Outside those bounds the call fails: a zero field of view divides by
    zero, and an empty output fails OpenCV's assertion. *)
Lemma perspective_from_equirect_zero_fov (pano : image)
    (yaw_deg pitch_deg : R) (out_w out_h : Z) :
  perspective_from_equirect pano yaw_deg pitch_deg 0 out_w out_h
  = Raise ZeroDivisionError.
Proof.
  unfold perspective_from_equirect, math.div, math.radians. cbv zeta.
  replace (0 * (PI / 180) / 2) with 0 by field. rewrite tan_0.
  destruct (Req_dec_T 0 0) as [_|H]; [reflexivity|contradiction].
Qed.

(** ** Properties of the view set *)

Lemma out_path_of_inj (image_id n1 n2 : string) :
  out_path_of image_id n1 = out_path_of image_id n2 ->
  "_" +:+ n1 +:+ ".jpg" = "_" +:+ n2 +:+ ".jpg".
Proof.
  unfold out_path_of, rel_path_of. intros H.
  do 3 apply String.app_inj in H. exact H.
Qed.

(** *** The field a view covers *)

Lemma linspace_bounds (start stop : R) (num : Z) (xs : list R) (x : R) :
  start <= stop -> np.linspace start stop num = Ok xs -> x ∈ xs ->
  start <= x <= stop.
Proof.
  intros Hss. unfold np.linspace. destruct (decide (num < 0)%Z); [discriminate|].
  intros [= <-]. rewrite list_elem_of_fmap. intros (i & -> & Hi).
  apply elem_of_seq in Hi as [_ Hi]. cbn in Hi.
  assert (Hin : 0 <= INR i) by apply pos_INR.
  destruct (decide (num <= 1)%Z) as [H1|H1].
  - assert (i = 0%nat) by lia. subst i. cbn. lra.
  - assert (Hi' : INR i <= IZR num - 1).
    { rewrite INR_IZR_INZ, <- minus_IZR. apply IZR_le. lia. }
    assert (Hd : 0 < IZR num - 1).
    { rewrite <- minus_IZR. apply IZR_lt. lia. }
    set (k := INR i) in *. set (m := IZR num - 1) in *.
    assert (Hq : 0 <= k / m <= 1).
    { split.
      - apply Rmult_le_pos; [lra|]. left. now apply Rinv_0_lt_compat.
      - apply (Rmult_le_reg_r m); [lra|]. unfold Rdiv.
        rewrite Rmult_assoc, Rinv_l by lra. lra. }
    replace (k * ((stop - start) / m)) with ((k / m) * (stop - start))
      by (field; lra).
    nra.
Qed.

(** With the focal length of [perspective_from_equirect], the horizontal
    angle [atan2(x, f)] of every column stays within half the field of view
    on either side of the optical axis. *)
Lemma view_columns_within_fov (fov_deg : R) (out_w : Z) (xs : list R) (x : R) :
  0 < fov_deg < 180 -> (0 < out_w)%Z ->
  np.linspace (- IZR out_w / 2) (IZR out_w / 2) out_w = Ok xs ->
  x ∈ xs ->
  - (math.radians fov_deg / 2)
  <= math.atan2 x (0.5 * IZR out_w / tan (math.radians fov_deg / 2))
  <= math.radians fov_deg / 2.
Proof.
  intros Hfov Hw Hxs Hx.
  assert (Hw' : 0 < IZR out_w) by (apply IZR_lt; lia).
  assert (Hss : - IZR out_w / 2 <= IZR out_w / 2) by lra.
  pose proof (linspace_bounds _ _ _ _ _ Hss Hxs Hx) as Hb.
  pose proof (tan_half_fov_pos fov_deg Hfov) as Ht.
  set (t := tan (math.radians fov_deg / 2)) in *.
  set (f := 0.5 * IZR out_w / t).
  assert (Hf : 0 < f) by (unfold f; apply Rdiv_lt_0_compat; lra).
  unfold math.atan2. destruct (Rlt_dec 0 f) as [_|Hn]; [|lra].
  assert (Hq : - t <= x / f <= t).
  { unfold f. replace (x / (0.5 * IZR out_w / t))
      with (t * (x / (0.5 * IZR out_w))) by (field; lra).
    assert (-1 <= x / (0.5 * IZR out_w) <= 1).
    { split.
      - apply (Rmult_le_reg_r (0.5 * IZR out_w)); [lra|]. unfold Rdiv.
        rewrite Rmult_assoc, Rinv_l by lra. lra.
      - apply (Rmult_le_reg_r (0.5 * IZR out_w)); [lra|]. unfold Rdiv.
        rewrite Rmult_assoc, Rinv_l by lra. lra. }
    nra. }
  pose proof PI_RGT_0 as Hpi.
  assert (Hr : - (PI / 2) < math.radians fov_deg / 2 < PI / 2).
  { unfold math.radians.
    assert (0 < fov_deg * (PI / 180)) by (apply Rmult_lt_0_compat; lra).
    assert (fov_deg * (PI / 180) < 180 * (PI / 180))
      by (apply Rmult_lt_compat_r; lra).
    lra. }
  pose proof (atan_tan _ Hr) as Hat. fold t in Hat.
  split.
  - rewrite <- Hat, <- atan_opp. apply atan_le. lra.
  - rewrite <- Hat. apply atan_le. lra.
Qed.

(** *** The longitudes a view samples *)

Lemma atan2_pos (y x : R) : 0 < x -> math.atan2 y x = atan (y / x).
Proof.
  intros Hx. unfold math.atan2.
  destruct (Rlt_dec 0 x); [reflexivity | contradiction].
Qed.

Lemma div_pos_iff (x n : R) : 0 < n -> (0 < x / n <-> 0 < x).
Proof.
  intros Hn. assert (Hi : 0 < / n) by now apply Rinv_0_lt_compat.
  unfold Rdiv. split; intros H.
  - assert (E : x = x * / n * n) by (field; lra). nra.
  - nra.
Qed.

Lemma div_neg_iff (x n : R) : 0 < n -> (x / n < 0 <-> x < 0).
Proof.
  intros Hn. assert (Hi : 0 < / n) by now apply Rinv_0_lt_compat.
  unfold Rdiv. split; intros H.
  - assert (E : x = x * / n * n) by (field; lra). nra.
  - nra.
Qed.

(** [atan2] does not change when both arguments are divided by a positive
    number, as the normalisation of the ray does. *)
Lemma atan2_scale (y x n : R) :
  0 < n -> math.atan2 (y / n) (x / n) = math.atan2 y x.
Proof.
  intros Hn.
  pose proof (div_pos_iff x n Hn) as Hxp. pose proof (div_neg_iff x n Hn) as Hxn.
  pose proof (div_pos_iff y n Hn) as Hyp. pose proof (div_neg_iff y n Hn) as Hyn.
  assert (Hq : x <> 0 -> y / n / (x / n) = y / x) by (intros; field; lra).
  unfold math.atan2.
  destruct (Rlt_dec 0 (x / n)) as [H1|H1], (Rlt_dec 0 x) as [H2|H2];
    try tauto; [rewrite Hq by lra; reflexivity|].
  destruct (Rlt_dec (x / n) 0) as [H3|H3], (Rlt_dec x 0) as [H4|H4];
    try tauto.
  - rewrite Hq by lra.
    destruct (Rle_dec 0 (y / n)) as [H5|H5], (Rle_dec 0 y) as [H6|H6];
      try reflexivity; exfalso.
    + apply H6. destruct H5 as [H5| H5]; [left; tauto|].
      right. apply (Rmult_eq_reg_r (/ n)); [|apply Rinv_neq_0_compat; lra].
      unfold Rdiv in H5. lra.
    + apply H5. destruct H6 as [H6| <-]; [left; tauto|].
      unfold Rdiv. lra.
  - destruct (Rlt_dec 0 (y / n)) as [H5|H5], (Rlt_dec 0 y) as [H6|H6];
      try tauto.
    destruct (Rlt_dec (y / n) 0) as [H7|H7], (Rlt_dec y 0) as [H8|H8];
      tauto.
Qed.

(** A quarter turn, a half turn and three quarters of a turn of the ray
    [(x, f)] about the vertical axis. *)
Lemma atan2_quarter_turn (f x : R) :
  0 < f -> math.atan2 f (- x) = atan (x / f) + PI / 2.
Proof.
  intros Hf. pose proof PI_RGT_0 as Hpi. unfold math.atan2.
  destruct (Rlt_dec 0 (- x)) as [H1|H1].
  - replace (f / - x) with (/ (- x / f)) by (field; lra).
    rewrite atan_inv by (apply Rdiv_lt_0_compat; lra).
    replace (- x / f) with (- (x / f)) by (field; lra).
    rewrite atan_opp. lra.
  - destruct (Rlt_dec (- x) 0) as [H2|H2].
    + destruct (Rle_dec 0 f) as [_|H3]; [|lra].
      replace (f / - x) with (- / (x / f)) by (field; lra).
      rewrite atan_opp, atan_inv by (apply Rdiv_lt_0_compat; lra). lra.
    + destruct (Rlt_dec 0 f) as [_|H3]; [|lra].
      assert (x = 0) by lra. subst x.
      unfold Rdiv. rewrite Rmult_0_l, atan_0. lra.
Qed.

Lemma atan2_three_quarter_turn (f x : R) :
  0 < f -> math.atan2 (- f) x = atan (x / f) - PI / 2.
Proof.
  intros Hf. pose proof PI_RGT_0 as Hpi. unfold math.atan2.
  destruct (Rlt_dec 0 x) as [H1|H1].
  - replace (- f / x) with (- / (x / f)) by (field; lra).
    rewrite atan_opp, atan_inv by (apply Rdiv_lt_0_compat; lra). lra.
  - destruct (Rlt_dec x 0) as [H2|H2].
    + destruct (Rle_dec 0 (- f)) as [H3|_]; [lra|].
      replace (- f / x) with (/ (- x / f)) by (field; lra).
      rewrite atan_inv by (apply Rdiv_lt_0_compat; lra).
      replace (- x / f) with (- (x / f)) by (field; lra).
      rewrite atan_opp. lra.
    + destruct (Rlt_dec 0 (- f)) as [H3|_]; [lra|].
      destruct (Rlt_dec (- f) 0) as [_|H3]; [|lra].
      assert (x = 0) by lra. subst x.
      unfold Rdiv. rewrite Rmult_0_l, atan_0. lra.
Qed.

Lemma atan2_half_turn (f x : R) :
  0 < f ->
  math.atan2 (- x) (- f) = atan (x / f) + PI
  \/ math.atan2 (- x) (- f) = atan (x / f) - PI.
Proof.
  intros Hf. unfold math.atan2.
  destruct (Rlt_dec 0 (- f)) as [H1|_]; [lra|].
  destruct (Rlt_dec (- f) 0) as [_|H2]; [|lra].
  replace (- x / - f) with (x / f) by (field; lra).
  destruct (Rle_dec 0 (- x)); [left|right]; reflexivity.
Qed.

(** With pitch 0 the longitude of a ray is the angle of its horizontal
    components, turned by the yaw. *)
Lemma ray_lon_level (yaw f xg yg : R) :
  0 < f ->
  (ray_angles yaw (math.radians 0) f xg yg).1
  = math.atan2 (xg * cos yaw + f * sin yaw) (- xg * sin yaw + f * cos yaw).
Proof.
  intros Hf. unfold ray_angles. cbv zeta. cbn [fst].
  replace (math.radians 0) with 0 by (unfold math.radians; ring).
  rewrite sin_0, cos_0.
  set (n := sqrt (xg * xg + - yg * - yg + f * 1 * (f * 1))).
  assert (Hn : 0 < n).
  { apply sqrt_lt_R0. nra. }
  rewrite <- (atan2_scale (xg * cos yaw + f * sin yaw)
               (- xg * sin yaw + f * cos yaw) n Hn).
  f_equal; field; lra.
Qed.

Lemma degrees_radians (d : R) : degrees (math.radians d) = d.
Proof.
  unfold degrees, math.radians. pose proof PI_RGT_0. field. lra.
Qed.

Lemma degrees_plus (a b : R) : degrees (a + b) = degrees a + degrees b.
Proof. unfold degrees. ring. Qed.

Lemma degrees_atan_bound (x f : R) :
  0 < f -> - f <= x <= f -> -45 <= degrees (atan (x / f)) <= 45.
Proof.
  intros Hf Hx. pose proof PI_RGT_0 as Hpi.
  assert (Hq : -1 <= x / f <= 1).
  { assert (Hi : 0 < / f) by now apply Rinv_0_lt_compat.
    assert (E : f * / f = 1) by (field; lra). unfold Rdiv. split; nra. }
  assert (Ha : - (PI / 4) <= atan (x / f) <= PI / 4).
  { rewrite <- atan_1. split.
    - rewrite <- atan_opp. apply atan_le. lra.
    - apply atan_le. lra. }
  assert (E45 : degrees (PI / 4) = 45) by (unfold degrees; field; lra).
  assert (Hd : 0 < 180 / PI) by (apply Rdiv_lt_0_compat; lra).
  unfold degrees in *. split; nra.
Qed.

(** Every ray of the view with yaw 0, 90, 180 or 270 and pitch 0 whose
    horizontal offset is within the focal length points, modulo full turns,
    within 45 degrees of the yaw. *)
Lemma view_longitude_within_field (yaw : Z) (f xg yg : R) :
  yaw ∈ yaw_list -> 0 < f -> - f <= xg <= f ->
  within_field (IZR yaw) 90
    (degrees (ray_angles (math.radians (IZR yaw)) (math.radians 0) f xg yg).1).
Proof.
  intros Hyaw Hf Hx. rewrite ray_lon_level by exact Hf.
  pose proof (degrees_atan_bound xg f Hf Hx) as Ha.
  pose proof PI_RGT_0 as Hpi.
  assert (E90 : degrees (PI / 2) = 90) by (unfold degrees; field; lra).
  assert (E180 : degrees PI = 180) by (unfold degrees; field; lra).
  unfold yaw_list in Hyaw. rewrite !elem_of_cons, elem_of_nil in Hyaw.
  unfold within_field.
  destruct Hyaw as [->|[->|[->|[->|[]]]]].
  - replace (math.radians 0) with 0 by (unfold math.radians; ring).
    rewrite sin_0, cos_0.
    replace (xg * 1 + f * 0) with xg by ring.
    replace (- xg * 0 + f * 1) with f by ring.
    rewrite atan2_pos by exact Hf. exists 0%Z. lra.
  - replace (math.radians 90) with (PI / 2) by (unfold math.radians; field).
    rewrite sin_PI2, cos_PI2.
    replace (xg * 0 + f * 1) with f by ring.
    replace (- xg * 1 + f * 0) with (- xg) by ring.
    rewrite atan2_quarter_turn by exact Hf.
    rewrite degrees_plus, E90. exists 0%Z. lra.
  - replace (math.radians 180) with PI by (unfold math.radians; field).
    rewrite sin_PI, cos_PI.
    replace (xg * -1 + f * 0) with (- xg) by ring.
    replace (- xg * 0 + f * -1) with (- f) by ring.
    destruct (atan2_half_turn f xg Hf) as [-> | ->].
    + rewrite degrees_plus, E180. exists 0%Z. lra.
    + unfold Rminus. rewrite degrees_plus.
      replace (degrees (- PI)) with (-180) by (unfold degrees; field; lra).
      exists 1%Z. lra.
  - replace (math.radians 270) with (3 * (PI / 2))
      by (unfold math.radians; field).
    rewrite sin_3PI2, cos_3PI2.
    replace (xg * 0 + f * -1) with (- f) by ring.
    replace (- xg * -1 + f * 0) with xg by ring.
    rewrite atan2_three_quarter_turn by exact Hf.
    unfold Rminus. rewrite degrees_plus.
    replace (degrees (- (PI / 2))) with (-90) by (unfold degrees; field; lra).
    exists 1%Z. lra.
Qed.

(** ** Sampling of the panorama *)

Lemma atan2_range (y x : R) : - PI < math.atan2 y x <= PI.
Proof.
  pose proof PI_RGT_0 as Hpi. pose proof (atan_bound (y / x)) as [Hl Hu].
  unfold math.atan2.
  destruct (Rlt_dec 0 x) as [Hx|Hx]; [lra|].
  destruct (Rlt_dec x 0) as [Hx'|Hx'].
  - assert (Hix : / x < 0) by now apply Rinv_lt_0_compat.
    destruct (Rle_dec 0 y) as [Hy|Hy].
    + assert (Hq : atan (y / x) <= 0).
      { rewrite <- atan_0. apply atan_le. unfold Rdiv. nra. }
      lra.
    + assert (Hq : 0 < atan (y / x)).
      { rewrite <- atan_0. apply atan_increasing. unfold Rdiv. nra. }
      lra.
  - destruct (Rlt_dec 0 y); [lra|]. destruct (Rlt_dec y 0); lra.
Qed.

Lemma unit_interval_scale (q n : R) : 0 <= q <= 1 -> 0 <= n -> 0 <= q * n <= n.
Proof. intros. nra. Qed.

Lemma div_PI_bounds (a b x : R) :
  a * PI <= x <= b * PI -> a <= x / PI <= b.
Proof.
  intros Hx. pose proof PI_RGT_0 as Hpi.
  assert (E : x = x / PI * PI) by (field; lra).
  set (q := x / PI) in *. nra.
Qed.

(** The source coordinates of every ray lie on the panorama or on its
    right and bottom edge. *)
Lemma pano_coords_range (h_in w_in : nat) (yaw pitch f xg yg : R) :
  0 <= (pano_coords h_in w_in yaw pitch f xg yg).1 <= INR w_in
  /\ 0 <= (pano_coords h_in w_in yaw pitch f xg yg).2 <= INR h_in.
Proof.
  unfold pano_coords, ray_angles. cbv zeta. cbn [fst snd].
  pose proof PI_RGT_0 as Hpi.
  split.
  - match goal with |- context [math.atan2 ?a ?b] =>
      pose proof (atan2_range a b) as [Hl Hu]; set (lon := math.atan2 a b) in *
    end.
    apply unit_interval_scale; [|apply pos_INR].
    replace (lon / (2 * PI)) with (lon / PI / 2) by (field; lra).
    pose proof (div_PI_bounds (-1) 1 lon ltac:(lra)). lra.
  - match goal with |- context [asin ?a] =>
      pose proof (asin_bound a) as [Hl Hu]; set (lat := asin a) in *
    end.
    apply unit_interval_scale; [|apply pos_INR].
    pose proof (div_PI_bounds (-1 / 2) (1 / 2) lat ltac:(lra)). lra.
Qed.

Lemma zip_grid_lookup {A B C} (f : A -> B -> C)
    (g1 : list (list A)) (g2 : list (list B)) (r c : nat) (z : C) :
  np.zip_grid f g1 g2 !! r ≫= (.!! c) = Some z <->
  exists a b, g1 !! r ≫= (.!! c) = Some a
              /\ g2 !! r ≫= (.!! c) = Some b /\ z = f a b.
Proof.
  unfold np.zip_grid. rewrite lookup_zip_with.
  destruct (g1 !! r) as [r1|]; cbn;
    [|split; [discriminate | intros (? & ? & [=] & _)]].
  destruct (g2 !! r) as [r2|]; cbn;
    [|split; [discriminate | intros (? & ? & _ & [=] & _)]].
  rewrite lookup_zip_with_Some.
  split; [intros (a & b & H1 & H2 & H3) | intros (a & b & H1 & H2 & H3)];
    exists a, b; auto.
Qed.

Lemma grid_shape_lookup {A} (g : list (list A)) (h w r c : nat) :
  grid_shape g h w -> (r < h)%nat -> (c < w)%nat ->
  exists a, g !! r ≫= (.!! c) = Some a.
Proof.
  intros [Hlen Hrows] Hr Hc.
  destruct (lookup_lt_is_Some_2 g r) as [row Hrow]; [lia|].
  rewrite Hrow. cbn. rewrite Forall_lookup in Hrows.
  apply lookup_lt_is_Some_2. rewrite (Hrows _ _ Hrow). exact Hc.
Qed.

(** Every pixel of the view is the bilinear sample of the panorama at the
    coordinates of its ray. *)
Lemma perspective_pixel (pano view : image)
    (yaw_deg pitch_deg fov_deg : R) (out_w out_h : Z) (r c : nat) (px : pixel) :
  perspective_from_equirect pano yaw_deg pitch_deg fov_deg out_w out_h
  = Ok view ->
  view !! r ≫= (.!! c) = Some px ->
  exists xs ys xg yg,
    np.linspace (- IZR out_w / 2) (IZR out_w / 2) out_w = Ok xs
    /\ np.linspace (- IZR out_h / 2) (IZR out_h / 2) out_h = Ok ys
    /\ xs !! c = Some xg /\ ys !! r = Some yg
    /\ px = cv2.sample pano
         (pano_coords (shape_h pano) (shape_w pano)
            (math.radians yaw_deg) (math.radians pitch_deg)
            (0.5 * IZR out_w / tan (math.radians fov_deg / 2)) xg yg).1
         (pano_coords (shape_h pano) (shape_w pano)
            (math.radians yaw_deg) (math.radians pitch_deg)
            (0.5 * IZR out_w / tan (math.radians fov_deg / 2)) xg yg).2.
Proof.
  unfold perspective_from_equirect. cbv zeta. unfold math.div at 1.
  destruct (Req_dec_T _ 0) as [|_]; [discriminate|]. cbn [mbind result_bind].
  destruct (np.linspace (- IZR out_w / 2) _ _) as [xs|]; [|discriminate].
  cbn [mbind result_bind].
  destruct (np.linspace (- IZR out_h / 2) _ _) as [ys|]; [|discriminate].
  cbn [mbind result_bind]. unfold np.meshgrid, cv2.remap.
  destruct (decide _) as [|_]; [discriminate|].
  destruct (decide _) as [_|]; [|discriminate]. intros [= <-] Hpx.
  apply zip_grid_lookup in Hpx as (sx & sy & Hsx & Hsy & ->).
  apply zip_grid_lookup in Hsx as (a & b & Ha & Hb & ->).
  apply zip_grid_lookup in Hsy as (a' & b' & Ha' & Hb' & ->).
  rewrite Ha in Ha'. injection Ha' as <-. rewrite Hb in Hb'. injection Hb' as <-.
  exists xs, ys, a, b. do 2 (split; [reflexivity|]).
  rewrite list_lookup_fmap in Ha, Hb.
  destruct (ys !! r) as [y|] eqn:Hy; [|discriminate]. cbn in Ha, Hb.
  rewrite list_lookup_fmap in Hb.
  destruct (xs !! c) as [x|] eqn:Hx; [|discriminate]. cbn in Hb.
  injection Ha as <-. injection Hb as <-. repeat split; reflexivity.
Qed.

Lemma linspace_lookup (start stop : R) (num : Z) (xs : list R)
    (i : nat) (x : R) :
  np.linspace start stop num = Ok xs -> xs !! i = Some x ->
  x = start + INR i * ((stop - start) / (IZR num - 1)).
Proof.
  unfold np.linspace. destruct (decide _); [discriminate|]. intros [= <-].
  rewrite list_lookup_fmap. intros H.
  destruct (seq 0 (Z.to_nat num) !! i) as [j|] eqn:Hj; [|discriminate].
  apply lookup_seq in Hj as [-> _]. cbn in H. now injection H as <-.
Qed.

(** Every entry of the maps is the panorama coordinate of the ray through
    its grid position. *)
Lemma equirect_maps_entry (h_in w_in : nat)
    (yaw_deg pitch_deg fov_deg : R) (out_w out_h : Z)
    (map_x map_y : list (list R)) (r c : nat) (sx sy : R) :
  equirect_maps h_in w_in yaw_deg pitch_deg fov_deg out_w out_h
  = Ok (map_x, map_y) ->
  map_x !! r ≫= (.!! c) = Some sx ->
  map_y !! r ≫= (.!! c) = Some sy ->
  exists xs ys xg yg,
    np.linspace (- IZR out_w / 2) (IZR out_w / 2) out_w = Ok xs
    /\ np.linspace (- IZR out_h / 2) (IZR out_h / 2) out_h = Ok ys
    /\ xs !! c = Some xg /\ ys !! r = Some yg
    /\ (sx, sy)
       = pano_coords h_in w_in
           (math.radians yaw_deg) (math.radians pitch_deg)
           (0.5 * IZR out_w / tan (math.radians fov_deg / 2)) xg yg.
Proof.
  unfold equirect_maps. cbv zeta. unfold math.div at 1.
  destruct (Req_dec_T _ 0) as [|_]; [discriminate|]. cbn [mbind result_bind].
  destruct (np.linspace (- IZR out_w / 2) _ _) as [xs|]; [|discriminate].
  cbn [mbind result_bind].
  destruct (np.linspace (- IZR out_h / 2) _ _) as [ys|]; [|discriminate].
  cbn [mbind result_bind]. unfold np.meshgrid. intros [= <- <-] Hsx Hsy.
  apply zip_grid_lookup in Hsx as (u & v & Ha & Hb & ->).
  apply zip_grid_lookup in Hsy as (a' & b' & Ha' & Hb' & ->).
  rewrite Ha in Ha'. injection Ha' as <-. rewrite Hb in Hb'. injection Hb' as <-.
  exists xs, ys, u, v. do 2 (split; [reflexivity|]).
  rewrite list_lookup_fmap in Ha, Hb.
  destruct (ys !! r) as [y|] eqn:Hy; [|discriminate]. cbn in Ha, Hb.
  rewrite list_lookup_fmap in Hb.
  destruct (xs !! c) as [x|] eqn:Hx; [|discriminate]. cbn in Hb.
  injection Ha as <-. injection Hb as <-.
  split; [reflexivity|]. split; [reflexivity|]. apply surjective_pairing.
Qed.

(** *** Sampling under [BORDER_WRAP] *)

Lemma Int_part_plus_IZR (x : R) (z : Z) :
  Int_part (x + IZR z) = (Int_part x + z)%Z.
Proof.
  symmetry. apply Int_part_spec. rewrite plus_IZR.
  pose proof (base_Int_part x) as [H1 H2]. lra.
Qed.

Lemma frac_part_plus_IZR (x : R) (z : Z) :
  frac_part (x + IZR z) = frac_part x.
Proof. unfold frac_part. rewrite Int_part_plus_IZR, plus_IZR. ring. Qed.

(** The panorama is read cyclically on both axes: a sample does not change
    when its horizontal coordinate moves by whole widths or its vertical
    coordinate by whole heights. *)
Lemma sample_periodic (src : image) (sx sy : R) (k m : Z) :
  cv2.sample src (sx + IZR k * INR (shape_w src))
                 (sy + IZR m * INR (shape_h src))
  = cv2.sample src sx sy.
Proof.
  unfold cv2.sample, cv2.taps, cv2.weights, cv2.border_wrap. cbv zeta.
  rewrite !INR_IZR_INZ, <- !mult_IZR, !Int_part_plus_IZR, !frac_part_plus_IZR.
  set (W := Z.of_nat (shape_w src)). set (H := Z.of_nat (shape_h src)).
  assert (E1 : forall a n p : Z, ((a + n * p) mod p = a mod p)%Z)
    by (intros; apply Z_mod_plus_full).
  assert (E2 : forall a n p : Z, ((a + n * p + 1) mod p = (a + 1) mod p)%Z).
  { intros a n p. rewrite <- (Z_mod_plus_full (a + 1) n p). f_equal. lia. }
  now rewrite !E1, !E2.
Qed.

(** C8, as the code has it: for every output pixel the source coordinate
    the code computes (the entries of [map_x] and [map_y]) lies in
    [0, width] x [0, height], and the pixel is the bilinear sample of the
    panorama there, read with [BORDER_WRAP] on both axes: the sample is the
    same at a horizontal coordinate moved by whole widths and at a vertical
    coordinate moved by whole heights, and the four taps are valid rows and
    columns; the vertical coordinate is not clamped. *)
Theorem perspective_samples_wrap_both_axes (pano : image)
    (yaw_deg pitch_deg fov_deg : R) (out_w out_h : Z) (r c : nat) :
  0 < fov_deg < 180 -> (0 < out_w)%Z -> (0 < out_h)%Z ->
  within_remap_limit pano out_w out_h ->
  (r < Z.to_nat out_h)%nat -> (c < Z.to_nat out_w)%nat ->
  exists map_x map_y view sx sy,
    equirect_maps (shape_h pano) (shape_w pano)
      yaw_deg pitch_deg fov_deg out_w out_h = Ok (map_x, map_y)
    /\ perspective_from_equirect pano yaw_deg pitch_deg fov_deg out_w out_h
       = Ok view
    /\ map_x !! r ≫= (.!! c) = Some sx
    /\ map_y !! r ≫= (.!! c) = Some sy
    /\ 0 <= sx <= INR (shape_w pano)
    /\ 0 <= sy <= INR (shape_h pano)
    /\ view !! r ≫= (.!! c) = Some (cv2.sample pano sx sy)
    /\ (forall k m : Z,
          cv2.sample pano (sx + IZR k * INR (shape_w pano))
                          (sy + IZR m * INR (shape_h pano))
          = cv2.sample pano sx sy)
    /\ ((0 < shape_h pano)%nat -> (0 < shape_w pano)%nat ->
        Forall (fun t : Z * Z =>
                  (0 <= t.1 < Z.of_nat (shape_h pano))%Z
                  /\ (0 <= t.2 < Z.of_nat (shape_w pano))%Z)
          (cv2.taps (Z.of_nat (shape_h pano)) (Z.of_nat (shape_w pano))
             sx sy)).
Proof.
  intros Hfov Hw Hh Hlim Hr Hc.
  destruct (perspective_from_equirect_maps pano yaw_deg pitch_deg fov_deg
              out_w out_h Hfov Hw Hh Hlim)
    as (map_x & map_y & Hmaps & Gx & Gy & Hview).
  destruct (grid_shape_lookup map_x _ _ r c Gx Hr Hc) as [sx Hsx].
  destruct (grid_shape_lookup map_y _ _ r c Gy Hr Hc) as [sy Hsy].
  destruct (equirect_maps_entry _ _ _ _ _ _ _ _ _ _ _ _ _ Hmaps Hsx Hsy)
    as (xs & ys & xg & yg & _ & _ & _ & _ & Hcoords).
  destruct (pano_coords_range (shape_h pano) (shape_w pano)
              (math.radians yaw_deg) (math.radians pitch_deg)
              (0.5 * IZR out_w / tan (math.radians fov_deg / 2)) xg yg)
    as [Hx Hy].
  rewrite <- Hcoords in Hx, Hy. cbn [fst snd] in Hx, Hy.
  exists map_x, map_y, (np.zip_grid (cv2.sample pano) map_x map_y), sx, sy.
  do 6 (split; [assumption|]).
  split; [apply zip_grid_lookup; eauto|].
  split; [intros; apply sample_periodic|].
  intros Hph Hpw. unfold cv2.taps, cv2.border_wrap.
  repeat constructor; cbn [fst snd];
    try (apply Z.mod_pos_bound; lia).
Qed.

Lemma perspective_samples_wrap_both_axes_witness :
  exists map_x map_y view sx sy,
    equirect_maps (shape_h two_row_pano) (shape_w two_row_pano)
      0 90 90 3 3 = Ok (map_x, map_y)
    /\ perspective_from_equirect two_row_pano 0 90 90 3 3 = Ok view
    /\ map_x !! 1%nat ≫= (.!! 1%nat) = Some sx
    /\ map_y !! 1%nat ≫= (.!! 1%nat) = Some sy
    /\ 0 <= sx <= INR (shape_w two_row_pano)
    /\ 0 <= sy <= INR (shape_h two_row_pano)
    /\ view !! 1%nat ≫= (.!! 1%nat) = Some (cv2.sample two_row_pano sx sy)
    /\ (forall k m : Z,
          cv2.sample two_row_pano (sx + IZR k * INR (shape_w two_row_pano))
                                  (sy + IZR m * INR (shape_h two_row_pano))
          = cv2.sample two_row_pano sx sy)
    /\ ((0 < shape_h two_row_pano)%nat -> (0 < shape_w two_row_pano)%nat ->
        Forall (fun t : Z * Z =>
                  (0 <= t.1 < Z.of_nat (shape_h two_row_pano))%Z
                  /\ (0 <= t.2 < Z.of_nat (shape_w two_row_pano))%Z)
          (cv2.taps (Z.of_nat (shape_h two_row_pano))
             (Z.of_nat (shape_w two_row_pano)) sx sy)).
Proof.
  apply (perspective_samples_wrap_both_axes two_row_pano 0 90 90 3 3 1 1).
  - lra.
  - lia.
  - lia.
  - unfold within_remap_limit, cv2.SHRT_MAX. cbn. lia.
  - vm_compute. lia.
  - vm_compute. lia.
Defined.

(** *** The pixel that looks at the pole *)

Lemma Int_part_IZR (z : Z) : Int_part (IZR z) = z.
Proof. symmetry. apply Int_part_spec. lra. Qed.

Lemma Int_part_half : Int_part (1 / 2) = 0%Z.
Proof. symmetry. apply Int_part_spec. lra. Qed.

Lemma atan2_0_0 : math.atan2 0 0 = 0.
Proof. unfold math.atan2. real_cases. reflexivity. Qed.

(** With pitch 90 the central ray [(0, 0, f)] maps to the middle column and
    to the vertical coordinate [h_in], one past the last row. *)
Lemma pano_coords_center_pitch_90 (h_in w_in : nat) (f : R) :
  0 < f ->
  pano_coords h_in w_in (math.radians 0) (math.radians 90) f 0 0
  = (INR w_in / 2, INR h_in).
Proof.
  intros Hf. unfold pano_coords, ray_angles. cbv zeta. cbn [fst snd].
  replace (math.radians 0) with 0 by (unfold math.radians; ring).
  replace (math.radians 90) with (PI / 2) by (unfold math.radians; field).
  rewrite sin_PI2, cos_PI2, sin_0, cos_0.
  replace (0 * 0 + - 0 * - 0 + f * 1 * (f * 1)) with (f * f) by ring.
  rewrite sqrt_square by lra.
  replace (f * 1 / f) with 1 by (field; lra).
  replace (- 0 / f * 0 - 1 * 1) with (- (1)) by (unfold Rdiv; ring).
  replace (0 / f * 1 + (- 0 / f * 1 + 1 * 0) * 0) with 0
    by (unfold Rdiv; ring).
  replace (- (0 / f) * 0 + (- 0 / f * 1 + 1 * 0) * 1) with 0
    by (unfold Rdiv; ring).
  rewrite atan2_0_0, asin_opp, asin_1.
  pose proof PI_RGT_0.
  replace (- (PI / 2) / PI) with (- (1 / 2)) by (field; lra).
  unfold Rdiv. rewrite Rmult_0_l. f_equal; lra.
Qed.

Lemma taps_two_row_pano_bottom_edge :
  cv2.taps 2 1 (1 / 2) 2 = [(0, 0); (0, 0); (1, 0); (1, 0)]%Z.
Proof.
  unfold cv2.taps. rewrite Int_part_half, (Int_part_IZR 2). reflexivity.
Qed.

Lemma sample_two_row_pano_bottom_edge :
  cv2.sample two_row_pano (1 / 2) 2 = [10].
Proof.
  unfold cv2.sample.
  change (Z.of_nat (shape_h two_row_pano)) with 2%Z.
  change (Z.of_nat (shape_w two_row_pano)) with 1%Z.
  rewrite taps_two_row_pano_bottom_edge.
  unfold cv2.weights, frac_part. rewrite Int_part_half, (Int_part_IZR 2).
  cbn. f_equal.
  change (nth 0 (cv2.at_ two_row_pano 0 0) 0) with 10.
  change (nth 0 (cv2.at_ two_row_pano 1 0) 0) with 20. lra.
Qed.

(** C8 fails as stated: in the 3 x 3 view with pitch 90 of a panorama of
    two rows, the central pixel has the vertical source coordinate 2, one
    past the last row; its taps are rows 0 and 1 (2 and 3 modulo 2), and it
    takes the value 10 of the top row, where a clamp to the last row would
    give 20. *)
Lemma nadir_pixel_reads_top_row :
  exists view,
    perspective_from_equirect two_row_pano 0 90 90 3 3 = Ok view
    /\ pano_coords 2 1 (math.radians 0) (math.radians 90)
         (0.5 * 3 / tan (math.radians 90 / 2)) 0 0 = (1 / 2, 2)
    /\ cv2.taps 2 1 (1 / 2) 2 = [(0, 0); (0, 0); (1, 0); (1, 0)]%Z
    /\ view !! 1%nat ≫= (.!! 1%nat) = Some [10]
    /\ cv2.at_ two_row_pano 1 0 = [20].
Proof.
  destruct (perspective_from_equirect_ok two_row_pano 0 90 90 3 3)
    as (view & Hview & Hshape & _);
    [lra|lia|lia|unfold within_remap_limit, cv2.SHRT_MAX; cbn; lia|].
  destruct (grid_shape_lookup view _ _ 1 1 Hshape) as [px Hpx];
    [vm_compute; lia|vm_compute; lia|].
  assert (Hf : 0 < 0.5 * 3 / tan (math.radians 90 / 2)).
  { apply Rdiv_lt_0_compat; [lra|]. apply tan_half_fov_pos. lra. }
  assert (Hcoords : pano_coords 2 1 (math.radians 0) (math.radians 90)
                      (0.5 * 3 / tan (math.radians 90 / 2)) 0 0 = (1 / 2, 2)).
  { rewrite pano_coords_center_pitch_90 by exact Hf. cbn [INR]. f_equal; lra. }
  exists view. split; [exact Hview|]. split; [exact Hcoords|].
  split; [apply taps_two_row_pano_bottom_edge|]. split; [|reflexivity].
  destruct (perspective_pixel _ _ _ _ _ _ _ _ _ _ Hview Hpx)
    as (xs & ys & xg & yg & Hxs & Hys & Hxg & Hyg & Hsample).
  unfold np.linspace in Hxs, Hys.
  rewrite decide_False in Hxs by lia. rewrite decide_False in Hys by lia.
  injection Hxs as <-. injection Hys as <-.
  cbn in Hxg, Hyg. injection Hxg as <-. injection Hyg as <-.
  transitivity (Some px); [exact Hpx|]. f_equal. rewrite Hsample.
  change (shape_h two_row_pano) with 2%nat.
  change (shape_w two_row_pano) with 1%nat.
  replace (- (3) / 2 + 1 * ((3 / 2 - - (3) / 2) / (3 - 1))) with 0
    by (field; lra).
  rewrite Hcoords. apply sample_two_row_pano_bottom_edge.
Qed.

(** ** The four views and their fields *)

Lemma equirect_maps_entry_x (h_in w_in : nat)
    (yaw_deg pitch_deg fov_deg : R) (out_w out_h : Z)
    (map_x map_y : list (list R)) (r c : nat) (sx : R) :
  equirect_maps h_in w_in yaw_deg pitch_deg fov_deg out_w out_h
  = Ok (map_x, map_y) ->
  map_x !! r ≫= (.!! c) = Some sx ->
  exists xs xg yg,
    np.linspace (- IZR out_w / 2) (IZR out_w / 2) out_w = Ok xs
    /\ xs !! c = Some xg
    /\ sx = (pano_coords h_in w_in
               (math.radians yaw_deg) (math.radians pitch_deg)
               (0.5 * IZR out_w / tan (math.radians fov_deg / 2)) xg yg).1.
Proof.
  unfold equirect_maps. cbv zeta. unfold math.div at 1.
  destruct (Req_dec_T _ 0) as [|_]; [discriminate|]. cbn [mbind result_bind].
  destruct (np.linspace (- IZR out_w / 2) _ _) as [xs|]; [|discriminate].
  cbn [mbind result_bind].
  destruct (np.linspace (- IZR out_h / 2) _ _) as [ys|]; [|discriminate].
  cbn [mbind result_bind]. unfold np.meshgrid. intros [= <- <-] Hsx.
  apply zip_grid_lookup in Hsx as (u & v & Ha & Hb & ->).
  rewrite list_lookup_fmap in Ha, Hb.
  destruct (ys !! r) as [y|] eqn:Hy; [|discriminate]. cbn in Ha, Hb.
  rewrite list_lookup_fmap in Hb.
  destruct (xs !! c) as [x|] eqn:Hx; [|discriminate]. cbn in Hb.
  injection Ha as <-. injection Hb as <-.
  exists xs, x, y. split; [reflexivity|]. split; [exact Hx | reflexivity].
Qed.

Lemma degrees_turn (x : R) : degrees x / 360 = x / (2 * PI).
Proof. unfold degrees. pose proof PI_RGT_0. field. lra. Qed.

Lemma focal_800_90 : 0.5 * 800 / tan (math.radians 90 / 2) = 400.
Proof.
  replace (math.radians 90 / 2) with (PI / 4) by (unfold math.radians; field).
  rewrite tan_PI4. lra.
Qed.

(** The longitude of a level ray for each of the four yaws. *)
Lemma ray_lon_yaws (f xg yg : R) :
  0 < f ->
  (ray_angles (math.radians 0) (math.radians 0) f xg yg).1 = atan (xg / f)
  /\ (ray_angles (math.radians 90) (math.radians 0) f xg yg).1
     = atan (xg / f) + PI / 2
  /\ (ray_angles (math.radians 180) (math.radians 0) f xg yg).1
     = (if Rle_dec 0 (- xg) then atan (xg / f) + PI else atan (xg / f) - PI)
  /\ (ray_angles (math.radians 270) (math.radians 0) f xg yg).1
     = atan (xg / f) - PI / 2.
Proof.
  intros Hf. rewrite !ray_lon_level by exact Hf. repeat split.
  - replace (math.radians 0) with 0 by (unfold math.radians; ring).
    rewrite sin_0, cos_0.
    replace (xg * 1 + f * 0) with xg by ring.
    replace (- xg * 0 + f * 1) with f by ring.
    now apply atan2_pos.
  - replace (math.radians 90) with (PI / 2) by (unfold math.radians; field).
    rewrite sin_PI2, cos_PI2.
    replace (xg * 0 + f * 1) with f by ring.
    replace (- xg * 1 + f * 0) with (- xg) by ring.
    now apply atan2_quarter_turn.
  - replace (math.radians 180) with PI by (unfold math.radians; field).
    rewrite sin_PI, cos_PI.
    replace (xg * -1 + f * 0) with (- xg) by ring.
    replace (- xg * 0 + f * -1) with (- f) by ring.
    unfold math.atan2.
    destruct (Rlt_dec 0 (- f)) as [H1|_]; [lra|].
    destruct (Rlt_dec (- f) 0) as [_|H2]; [|lra].
    replace (- xg / - f) with (xg / f) by (field; lra). reflexivity.
  - replace (math.radians 270) with (3 * (PI / 2))
      by (unfold math.radians; field).
    rewrite sin_3PI2, cos_3PI2.
    replace (xg * 0 + f * -1) with (- f) by ring.
    replace (- xg * -1 + f * 0) with xg by ring.
    now apply atan2_three_quarter_turn.
Qed.

(** The maps of the four views cover the quarter of the circle centred on
    their yaw, from edge to edge. *)
Lemma view_map_covers (h_in w_in : nat) (yaw : Z) (left_deg right_deg : R)
    (map_x map_y : list (list R)) :
  (yaw, left_deg, right_deg)
    ∈ [(0%Z, -45, 45); (90%Z, 45, 135); (180%Z, 135, -135);
       (270%Z, -135, -45)] ->
  equirect_maps h_in w_in (IZR yaw) 0 90 800 600 = Ok (map_x, map_y) ->
  covers_field w_in map_x (IZR yaw) 90 799 left_deg right_deg.
Proof.
  intros Hin Hmaps. pose proof PI_RGT_0 as Hpi.
  assert (Hyaw : yaw ∈ yaw_list).
  { unfold yaw_list. rewrite !elem_of_cons, elem_of_nil in Hin.
    rewrite !elem_of_cons.
    destruct Hin as [[= -> _ _]|[[= -> _ _]|[[= -> _ _]|[[= -> _ _]|[]]]]];
      tauto. }
  assert (Hentry : forall r c sx,
    map_x !! r ≫= (.!! c) = Some sx ->
    exists xs xg yg,
      np.linspace (- (800) / 2) (800 / 2) 800 = Ok xs /\ xs !! c = Some xg
      /\ sx = (degrees (ray_angles (math.radians (IZR yaw)) (math.radians 0)
                          400 xg yg).1 / 360 + 0.5) * INR w_in).
  { intros r c sx Hsx.
    destruct (equirect_maps_entry_x _ _ _ _ _ _ _ _ _ _ _ _ Hmaps Hsx)
      as (xs & xg & yg & Hxs & Hxg & ->).
    exists xs, xg, yg. do 2 (split; [assumption|]).
    rewrite focal_800_90, degrees_turn. reflexivity. }
  assert (Hatan1 : atan (-400 / 400) = - (PI / 4)).
  { replace (-400 / 400) with (- (1)) by field. now rewrite atan_opp, atan_1. }
  assert (Hatan2 : atan (400 / 400) = PI / 4).
  { replace (400 / 400) with 1 by field. apply atan_1. }
  split; [|split].
  - intros r c sx Hsx.
    destruct (Hentry r c sx Hsx) as (xs & xg & yg & Hxs & Hxg & ->).
    eexists. split; [|reflexivity].
    assert (Hss : - (800) / 2 <= 800 / 2) by lra.
    pose proof (linspace_bounds _ _ _ _ _ Hss Hxs
                  (list_elem_of_lookup_2 _ _ _ Hxg)).
    apply view_longitude_within_field; [exact Hyaw | lra | lra].
  - intros r sx Hsx.
    destruct (Hentry r 0%nat sx Hsx) as (xs & xg & yg & Hxs & Hxg & ->).
    assert (Ex : xg = -400).
    { rewrite (linspace_lookup _ _ _ _ _ _ Hxs Hxg). cbn [INR]. lra. }
    subst xg.
    match goal with |- (degrees ?X / 360 + _) * _ = _ =>
      enough (E : degrees X = left_deg) by now rewrite E
    end.
    destruct (ray_lon_yaws 400 (-400) yg) as (L0 & L90 & L180 & L270); [lra|].
    rewrite !elem_of_cons, elem_of_nil in Hin.
    destruct Hin as [[= -> -> _]|[[= -> -> _]|[[= -> -> _]|[[= -> -> _]|[]]]]].
    + rewrite L0, Hatan1. unfold degrees. field. lra.
    + rewrite L90, Hatan1. unfold degrees. field. lra.
    + rewrite L180, Hatan1.
      destruct (Rle_dec 0 (- -400)) as [_|Hn]; [|lra].
      unfold degrees. field. lra.
    + rewrite L270, Hatan1. unfold degrees. field. lra.
  - intros r sx Hsx.
    destruct (Hentry r 799%nat sx Hsx) as (xs & xg & yg & Hxs & Hxg & ->).
    assert (Ex : xg = 400).
    { rewrite (linspace_lookup _ _ _ _ _ _ Hxs Hxg).
      rewrite INR_IZR_INZ. change (Z.of_nat 799) with 799%Z. field. }
    subst xg.
    match goal with |- (degrees ?X / 360 + _) * _ = _ =>
      enough (E : degrees X = right_deg) by now rewrite E
    end.
    destruct (ray_lon_yaws 400 400 yg) as (L0 & L90 & L180 & L270); [lra|].
    rewrite !elem_of_cons, elem_of_nil in Hin.
    destruct Hin as [[= -> _ ->]|[[= -> _ ->]|[[= -> _ ->]|[[= -> _ ->]|[]]]]].
    + rewrite L0, Hatan2. unfold degrees. field. lra.
    + rewrite L90, Hatan2. unfold degrees. field. lra.
    + rewrite L180, Hatan2.
      destruct (Rle_dec 0 (- (400))) as [Hn|_]; [lra|].
      unfold degrees. field. lra.
    + rewrite L270, Hatan2. unfold degrees. field. lra.
Qed.

(** C9, as the code has it: for a panorama that loads and has fewer than
    32767 rows and columns, the builder renders exactly four views of
    800 x 600 pixels, with yaw 0, 90, 180 and 270 degrees, pitch 0 and a
    field of view of 90 degrees, and stores and returns them under the
    names front, right, back and left.  The horizontal coordinates each
    view samples lie within 45 degrees of its yaw, its first column at the
    left edge of that field and its last column at the right edge: the
    four fields tile the circle without a gap, and the last column of a
    view looks in the same direction as the first column of the next.
    For a larger panorama the builder raises the error of [cv2.remap] and
    writes nothing. *)
Theorem generate_four_views (E : env) (image_id image_url : string)
    (w w0 : world) (pano : image) :
  load_pano E image_id image_url w = (Ok (Some pano), w0) ->
  ((Z.of_nat (shape_h pano) < 32767
    /\ Z.of_nat (shape_w pano) < 32767)%Z ->
   exists w',
     generate_normal_views_for_pano E image_id image_url w
     = (Ok (<["left" := url_for_static E (rel_path_of image_id "left")]>
             (<["back" := url_for_static E (rel_path_of image_id "back")]>
               (<["right" := url_for_static E (rel_path_of image_id "right")]>
                 (<["front" := url_for_static E (rel_path_of image_id "front")]>
                    ∅)))),
        w')
     /\ net_log w' = net_log w0
     /\ Forall
          (fun '(yaw, name, left_deg, right_deg) =>
             exists map_x map_y,
               equirect_maps (shape_h pano) (shape_w pano)
                 (IZR yaw) 0 90 800 600 = Ok (map_x, map_y)
               /\ perspective_from_equirect pano (IZR yaw) 0 90 800 600
                  = Ok (np.zip_grid (cv2.sample pano) map_x map_y)
               /\ fs w' !! out_path_of image_id name
                  = Some (imencode E
                            (np.zip_grid (cv2.sample pano) map_x map_y))
               /\ grid_shape map_x 600 800
               /\ covers_field (shape_w pano) map_x (IZR yaw) 90 799
                    left_deg right_deg)
          [ (0%Z, "front", -45, 45); (90%Z, "right", 45, 135);
            (180%Z, "back", 135, -135); (270%Z, "left", -135, -45) ])
  /\ (~ (Z.of_nat (shape_h pano) < 32767
         /\ Z.of_nat (shape_w pano) < 32767)%Z ->
      generate_normal_views_for_pano E image_id image_url w
      = (Raise CvError, w0)).
Proof.
  intros Hload. split; [intros [Lh Lw]|intros Hn]; cycle 1.
  { unfold generate_normal_views_for_pano. unfold mbind at 1, M_bind at 1.
    rewrite Hload. unfold yaw_list. cbn [render_views].
    unfold mbind, M_bind. rewrite render_view_frame.
    unfold pitch_deg, fov_deg, out_w, out_h.
    rewrite perspective_from_equirect_too_large;
      [reflexivity|lra|lia|lia|].
    unfold within_remap_limit, cv2.SHRT_MAX. lia. }
  assert (Hlim : within_remap_limit pano 800 600).
  { unfold within_remap_limit, cv2.SHRT_MAX. lia. }
  destruct (perspective_from_equirect_maps pano 0 0 90 800 600)
    as (fx & fy & Mf & Gf & _ & Hfront); [lra|lia|lia|exact Hlim|].
  destruct (perspective_from_equirect_maps pano 90 0 90 800 600)
    as (rx & ry & Mr & Gr & _ & Hright); [lra|lia|lia|exact Hlim|].
  destruct (perspective_from_equirect_maps pano 180 0 90 800 600)
    as (bx & by' & Mb & Gb & _ & Hback); [lra|lia|lia|exact Hlim|].
  destruct (perspective_from_equirect_maps pano 270 0 90 800 600)
    as (lx & ly & Ml & Gl & _ & Hleft); [lra|lia|lia|exact Hlim|].
  eexists. split.
  { unfold generate_normal_views_for_pano. unfold mbind at 1, M_bind at 1.
    rewrite Hload. unfold yaw_list. cbn [render_views].
    unfold mbind, M_bind. rewrite !render_view_frame.
    unfold pitch_deg, fov_deg, out_w, out_h.
    rewrite Hfront. rewrite !render_view_frame.
    unfold pitch_deg, fov_deg, out_w, out_h.
    rewrite Hright. rewrite !render_view_frame.
    unfold pitch_deg, fov_deg, out_w, out_h.
    rewrite Hback. rewrite !render_view_frame.
    unfold pitch_deg, fov_deg, out_w, out_h.
    rewrite Hleft. reflexivity. }
  cbn [fs net_log].
  change (view_name 0) with "front". change (view_name 90) with "right".
  change (view_name 180) with "back". change (view_name 270) with "left".
  assert (Hne : forall n1 n2 : string,
             "_" +:+ n1 +:+ ".jpg" <> "_" +:+ n2 +:+ ".jpg" ->
             out_path_of image_id n1 <> out_path_of image_id n2).
  { intros n1 n2 Hn H. apply Hn. now apply out_path_of_inj in H. }
  split; [reflexivity|].
  change (Z.to_nat 600) with 600%nat in *.
  change (Z.to_nat 800) with 800%nat in *.
  repeat apply Forall_cons_2; [| | | |constructor].
  - exists fx, fy. do 2 (split; [assumption|]). split; [|split].
    + rewrite !lookup_insert_ne by (apply Hne; discriminate).
      apply lookup_insert_eq.
    + exact Gf.
    + eapply view_map_covers; [|exact Mf]. rewrite !elem_of_cons. tauto.
  - exists rx, ry. do 2 (split; [assumption|]). split; [|split].
    + rewrite !lookup_insert_ne by (apply Hne; discriminate).
      apply lookup_insert_eq.
    + exact Gr.
    + eapply view_map_covers; [|exact Mr]. rewrite !elem_of_cons. tauto.
  - exists bx, by'. do 2 (split; [assumption|]). split; [|split].
    + rewrite !lookup_insert_ne by (apply Hne; discriminate).
      apply lookup_insert_eq.
    + exact Gb.
    + eapply view_map_covers; [|exact Mb]. rewrite !elem_of_cons. tauto.
  - exists lx, ly. do 2 (split; [assumption|]). split; [|split].
    + apply lookup_insert_eq.
    + exact Gl.
    + eapply view_map_covers; [|exact Ml]. rewrite !elem_of_cons. tauto.
Qed.

Lemma generate_four_views_witness :
  exists w',
    generate_normal_views_for_pano demo_env "42" "https://host/42" demo_world
    = (Ok (<["left" := url_for_static demo_env (rel_path_of "42" "left")]>
            (<["back" := url_for_static demo_env (rel_path_of "42" "back")]>
              (<["right" := url_for_static demo_env (rel_path_of "42" "right")]>
                (<["front" := url_for_static demo_env (rel_path_of "42" "front")]>
                   ∅)))),
       w')
    /\ net_log w' = net_log demo_world
    /\ Forall
         (fun '(yaw, name, left_deg, right_deg) =>
            exists map_x map_y,
              equirect_maps (shape_h [[[1]]]) (shape_w [[[1]]])
                (IZR yaw) 0 90 800 600 = Ok (map_x, map_y)
              /\ perspective_from_equirect [[[1]]] (IZR yaw) 0 90 800 600
                 = Ok (np.zip_grid (cv2.sample [[[1]]]) map_x map_y)
              /\ fs w' !! out_path_of "42" name
                 = Some (imencode demo_env
                           (np.zip_grid (cv2.sample [[[1]]]) map_x map_y))
              /\ grid_shape map_x 600 800
              /\ covers_field (shape_w [[[1]]]) map_x (IZR yaw) 90 799
                   left_deg right_deg)
         [ (0%Z, "front", -45, 45); (90%Z, "right", 45, 135);
           (180%Z, "back", 135, -135); (270%Z, "left", -135, -45) ].
Proof.
  apply (generate_four_views demo_env "42" "https://host/42"
           demo_world demo_world [[[1]]]).
  - vm_compute. reflexivity.
  - cbn. lia.
Defined.

(** C9 fails as stated: for a cached panorama of 16384 rows and 32768
    columns the builder produces no view; the first projection raises the
    error of [cv2.remap]. *)
Lemma generate_wide_panorama_raises :
  load_pano huge_env "42" "https://host/42" demo_world
  = (Ok (Some huge_pano), demo_world)
  /\ well_shaped huge_pano (Z.to_nat 16384) (Z.to_nat 32768) 3
  /\ generate_normal_views_for_pano huge_env "42" "https://host/42" demo_world
     = (Raise CvError, demo_world).
Proof.
  assert (Hload : load_pano huge_env "42" "https://host/42" demo_world
                  = (Ok (Some huge_pano), demo_world)).
  { apply (load_pano_cached huge_env "42" "https://host/42" demo_world []).
    reflexivity. }
  split; [exact Hload|]. split; [apply huge_pano_shape|].
  unfold generate_normal_views_for_pano. unfold mbind at 1, M_bind at 1.
  rewrite Hload. unfold yaw_list. cbn [render_views].
  unfold mbind, M_bind. rewrite render_view_frame.
  unfold pitch_deg, fov_deg, out_w, out_h.
  rewrite perspective_from_equirect_too_large;
    [reflexivity|lra|lia|lia|apply huge_pano_too_large].
Qed.

(** * Further properties of the code *)

(** ** Distances and boxes *)

(** X1: whenever the haversine distance is returned, it is not negative
    and does not exceed half the circumference of the sphere of radius
    6371000 m; this uses only that the two square roots are not negative,
    not the range of the haversine term. *)
Theorem haversine_distance_m_range (lat1 lon1 lat2 lon2 d : R) :
  haversine_distance_m lat1 lon1 lat2 lon2 = Ok d ->
  0 <= d <= 6371000 * PI.
Proof.
  unfold haversine_distance_m, math.sqrt. cbv zeta.
  destruct (Rlt_dec (haversine_a lat1 lon1 lat2 lon2) 0); [discriminate|].
  cbn [mbind result_bind].
  destruct (Rlt_dec (1 - haversine_a lat1 lon1 lat2 lon2) 0); [discriminate|].
  cbn [mbind result_bind]. intros [= <-].
  pose proof (atan2_quadrant_range
                (sqrt (haversine_a lat1 lon1 lat2 lon2))
                (sqrt (1 - haversine_a lat1 lon1 lat2 lon2))
                (sqrt_pos _) (sqrt_pos _)) as [H0 H1].
  lra.
Qed.

Lemma haversine_distance_m_range_witness :
  0 <= haversine_m 10 20 (-30) 40 <= 6371000 * PI.
Proof.
  apply (haversine_distance_m_range 10 20 (-30) 40).
  apply haversine_distance_m_total.
Defined.

(** X2: along a meridian the distance is the arc of the latitude
    difference: a point [d] degrees north or south, for less than half a
    turn, is at [6371000 * radians |d|] metres, which is about 111195 m per
    degree. *)
Theorem haversine_distance_m_meridian (lat lon d : R) :
  -180 < d < 180 ->
  haversine_distance_m lat lon (lat + d) lon
  = Ok (6371000 * math.radians (Rabs d)).
Proof.
  intros Hd. rewrite haversine_distance_m_total. f_equal.
  destruct (Rle_dec 0 d) as [Hpos|Hneg].
  - rewrite Rabs_pos_eq by exact Hpos. apply haversine_m_due_north. lra.
  - rewrite Rabs_left by lra. rewrite haversine_m_sym.
    replace lat with (lat + d + - d) at 2 by ring.
    apply haversine_m_due_north. lra.
Qed.

Lemma haversine_distance_m_meridian_witness :
  haversine_distance_m 10 20 (10 + -1) 20
  = Ok (6371000 * math.radians (Rabs (-1))).
Proof. apply (haversine_distance_m_meridian 10 20 (-1)). lra. Defined.

(** X3: for a radius that is not negative the box is well formed, its
    height is [2 * radius / 111320] degrees, and its width is at least its
    height and at most a million times its height, whatever the latitude:
    the clamp of the cosine keeps the width bounded at the poles. *)
Theorem bbox_from_point_extent (lat lon radius_m : R) :
  0 <= radius_m ->
  exists b,
    bbox_from_point lat lon radius_m = Ok b
    /\ min_lat b <= max_lat b /\ min_lon b <= max_lon b
    /\ max_lat b - min_lat b = 2 * radius_m / 111320
    /\ max_lat b - min_lat b <= max_lon b - min_lon b
       <= 1000000 * (max_lat b - min_lat b).
Proof.
  intros Hr. eexists. split; [apply bbox_from_point_ok|]. cbn.
  unfold delta_lat_of, delta_lon_of.
  set (m := Rmax (cos (math.radians lat)) (1 / 1000000)).
  assert (Hm : 1 / 1000000 <= m <= 1).
  { unfold m. split; [apply Rmax_r|].
    apply Rmax_lub; [apply COS_bound | lra]. }
  assert (Him : 1 <= / m <= 1000000).
  { split.
    - rewrite <- Rinv_1. apply Rinv_le_contravar; lra.
    - replace 1000000 with (/ (1 / 1000000)) by field.
      apply Rinv_le_contravar; lra. }
  replace (radius_m / (111320 * m)) with (radius_m / 111320 * / m)
    by (field; lra).
  assert (Hq : 0 <= radius_m / 111320) by (apply Rmult_le_pos; lra).
  repeat split; nra.
Qed.

Lemma bbox_from_point_extent_witness :
  exists b,
    bbox_from_point 89 0 100 = Ok b
    /\ min_lat b <= max_lat b /\ min_lon b <= max_lon b
    /\ max_lat b - min_lat b = 2 * 100 / 111320
    /\ max_lat b - min_lat b <= max_lon b - min_lon b
       <= 1000000 * (max_lat b - min_lat b).
Proof. apply (bbox_from_point_extent 89 0 100). lra. Defined.

(** ** The candidate search *)

Lemma collect_results_cons_usable (lat lon : R) (img : raw_image)
    (images : list raw_image) (img_lon img_lat : R) :
  usable_coords (raw_coordinates img) = Some (img_lon, img_lat) ->
  collect_results lat lon (img :: images)
  = (i ← getitem_id img;
     rest ← collect_results lat lon images;
     Ok ({| cand_id := i; cand_lat := img_lat; cand_lon := img_lon;
            distance_m := haversine_m lat lon img_lat img_lon;
            viewer_url := viewer_url_of i;
            is_pano := default false (raw_is_pano img);
            thumb_2048_url := raw_thumb_2048_url img |} :: rest)).
Proof.
  intros Hc. cbn [collect_results]. rewrite Hc.
  rewrite haversine_distance_m_total. reflexivity.
Qed.

(** X4: records without two coordinates are dropped without an error: the
    loop gives what it gives on the usable records alone, and when it
    returns, one candidate per usable record. *)
Theorem collect_results_skips_unusable (lat lon : R)
    (images : list raw_image) :
  collect_results lat lon images
  = collect_results lat lon
      (filter (fun img => is_Some (usable_coords (raw_coordinates img)))
              images)
  /\ forall all,
       collect_results lat lon images = Ok all ->
       length all
       = length (filter (fun img =>
                           is_Some (usable_coords (raw_coordinates img)))
                        images).
Proof.
  induction images as [|img images [IH1 IH2]]; [split; [reflexivity|]|].
  { intros all [= <-]. reflexivity. }
  rewrite filter_cons.
  destruct (usable_coords (raw_coordinates img)) as [[img_lon img_lat]|] eqn:Hc.
  - rewrite decide_True by eauto.
    rewrite !(collect_results_cons_usable _ _ _ _ _ _ Hc). split.
    + now rewrite IH1.
    + intros all. destruct (getitem_id img) as [i|e]; [|discriminate].
      cbn [mbind result_bind].
      destruct (collect_results lat lon images) as [rest|e] eqn:Hrest;
        [|discriminate].
      cbn [mbind result_bind]. intros [= <-]. cbn. f_equal. now apply IH2.
  - rewrite decide_False by (intros [? [=]]).
    cbn [collect_results]. rewrite Hc. split; assumption.
Qed.

(** The loop raises [KeyError] when a record with coordinates has no
    ["id"]. *)
Lemma collect_results_missing_id (lat lon : R) (images : list raw_image) :
  Exists (fun img => is_Some (usable_coords (raw_coordinates img))
                     /\ raw_id img = None) images ->
  collect_results lat lon images = Raise KeyError.
Proof.
  intros Hex.
  induction Hex as [img images [[[img_lon img_lat] Hc] Hid]|img images _ IH].
  - rewrite (collect_results_cons_usable _ _ _ _ _ _ Hc).
    unfold getitem_id. now rewrite Hid.
  - destruct (usable_coords (raw_coordinates img))
      as [[img_lon img_lat]|] eqn:Hc.
    + rewrite (collect_results_cons_usable _ _ _ _ _ _ Hc), IH.
      destruct (getitem_id img) as [i|e] eqn:Hi; [reflexivity|].
      unfold getitem_id in Hi. destruct (raw_id img); [discriminate|].
      now injection Hi as <-.
    + cbn [collect_results]. now rewrite Hc.
Qed.

(** X5: a record with coordinates and without an ["id"] makes the search
    raise [KeyError], whatever the other records are. *)
Theorem find_nearest_missing_id (source : RecordSource) (lat lon : R)
    (n : Z) (radius_m : R) (data : option (list raw_image)) :
  (forall b, bbox_from_point lat lon radius_m = Ok b -> source b = Ok data) ->
  Exists (fun img => is_Some (usable_coords (raw_coordinates img))
                     /\ raw_id img = None) (default [] data) ->
  find_nearest_vr_images source lat lon n radius_m = Raise KeyError.
Proof.
  intros Hsrc Hex. unfold find_nearest_vr_images.
  rewrite bbox_from_point_ok. cbn [mbind result_bind].
  rewrite (Hsrc _ (bbox_from_point_ok lat lon radius_m)).
  cbn [mbind result_bind].
  pose proof (collect_results_missing_id lat lon _ Hex) as Hraise.
  destruct (default [] data) as [|img images]; [now apply Exists_nil in Hex|].
  now rewrite Hraise.
Qed.

Lemma find_nearest_missing_id_witness :
  find_nearest_vr_images
    (fun _ => Ok (Some [mkRaw None (Some [0; 0]) None None])) 0 0 3 100
  = Raise KeyError.
Proof.
  apply (find_nearest_missing_id _ 0 0 3 100
           (Some [mkRaw None (Some [0; 0]) None None])).
  - reflexivity.
  - constructor. split; [cbn; eauto | reflexivity].
Defined.

(** X6: a failure of the source is passed on unchanged, and a source
    without usable records (no ["data"], an empty list, or only records
    that lack coordinates) gives the empty list. *)
Theorem find_nearest_source_outcomes (source : RecordSource) (lat lon : R)
    (n : Z) (radius_m : R) (b : BoundingBox) :
  bbox_from_point lat lon radius_m = Ok b ->
  (forall e, source b = Raise e ->
             find_nearest_vr_images source lat lon n radius_m = Raise e)
  /\ (forall data,
        source b = Ok data ->
        Forall (fun img => usable_coords (raw_coordinates img) = None)
               (default [] data) ->
        find_nearest_vr_images source lat lon n radius_m = Ok []).
Proof.
  intros Hb. unfold find_nearest_vr_images. rewrite Hb.
  cbn [mbind result_bind]. split.
  - intros e ->. reflexivity.
  - intros data -> Hall. cbn [mbind result_bind].
    assert (Hnone : collect_results lat lon (default [] data) = Ok []).
    { induction Hall as [|img images Hc _ IH]; [reflexivity|].
      cbn [collect_results]. now rewrite Hc. }
    destruct (default [] data) as [|img images]; [reflexivity|].
    rewrite Hnone. cbn [mbind result_bind]. f_equal.
    unfold slice_to. cbn. destruct (decide _); now rewrite take_nil.
Qed.

Lemma find_nearest_source_outcomes_witness :
  find_nearest_vr_images failing_source 0 0 3 100 = Raise RequestException
  /\ find_nearest_vr_images (fun _ => Ok (Some blank_records)) 0 0 3 100
     = Ok []
  /\ find_nearest_vr_images (fun _ => Ok None) 0 0 3 100 = Ok [].
Proof.
  pose proof (bbox_from_point_ok 0 0 100) as Hb.
  split; [|split].
  - apply (proj1 (find_nearest_source_outcomes failing_source
                    0 0 3 100 _ Hb)).
    reflexivity.
  - apply (proj2 (find_nearest_source_outcomes
                    (fun _ => Ok (Some blank_records)) 0 0 3 100 _ Hb)
             (Some blank_records)); [reflexivity|].
    repeat constructor.
  - apply (proj2 (find_nearest_source_outcomes (fun _ => Ok None)
                    0 0 3 100 _ Hb) None); [reflexivity|].
    constructor.
Defined.

Lemma slice_to_nil {A} (n : Z) : slice_to n (@nil A) = [].
Proof. unfold slice_to. destruct (decide _); apply take_nil. Qed.

(** The early return on an empty list changes nothing: the search is the
    loop followed by the sort and the slice. *)
Lemma find_nearest_vr_images_unfold (source : RecordSource) (lat lon : R)
    (n : Z) (radius_m : R) (data : option (list raw_image)) :
  (forall b, bbox_from_point lat lon radius_m = Ok b -> source b = Ok data) ->
  find_nearest_vr_images source lat lon n radius_m
  = (results ← collect_results lat lon (default [] data);
     Ok (slice_to n (sort_by_key distance_m results))).
Proof.
  intros Hsrc. unfold find_nearest_vr_images.
  rewrite bbox_from_point_ok. cbn [mbind result_bind].
  rewrite (Hsrc _ (bbox_from_point_ok lat lon radius_m)).
  cbn [mbind result_bind].
  destruct (default [] data) as [|img images]; [|reflexivity].
  cbn. now rewrite slice_to_nil.
Qed.

Lemma StronglySorted_app_cross {A} (R : relation A) (l1 l2 : list A) :
  StronglySorted R (l1 ++ l2) ->
  forall x1 x2, x1 ∈ l1 -> x2 ∈ l2 -> R x1 x2.
Proof.
  induction l1 as [|x l1 IH]; cbn; intros Hs x1 x2 H1 H2.
  - now apply elem_of_nil in H1.
  - apply StronglySorted_inv in Hs as [Hs Hx].
    apply elem_of_cons in H1 as [->|H1]; [|now apply IH].
    rewrite Forall_forall in Hx. apply Hx, elem_of_app. now right.
Qed.

(** X7: for a count that is not negative the search returns the closest
    candidates: the result and the candidates left out make up exactly the
    candidates of the usable records, the result has the requested number
    of them (or all, when there are fewer), and no candidate left out is
    closer than a returned one. *)
Theorem find_nearest_returns_closest
    (source : RecordSource) (lat lon : R) (n : Z) (radius_m : R)
    (data : option (list raw_image)) :
  (0 <= n)%Z ->
  (forall b, bbox_from_point lat lon radius_m = Ok b -> source b = Ok data) ->
  Forall id_if_usable (default [] data) ->
  exists res rest all,
    find_nearest_vr_images source lat lon n radius_m = Ok res
    /\ collect_results lat lon (default [] data) = Ok all
    /\ res ++ rest ≡ₚ all
    /\ length res = Nat.min (Z.to_nat n) (length all)
    /\ forall c c', c ∈ res -> c' ∈ rest -> distance_m c <= distance_m c'.
Proof.
  intros Hn Hsrc Hids.
  destruct (collect_results_ok lat lon _ Hids) as (all & Hall & _).
  rewrite (find_nearest_vr_images_unfold _ _ _ _ _ _ Hsrc), Hall.
  cbn [mbind result_bind]. rewrite slice_to_take by exact Hn.
  exists (take (Z.to_nat n) (sort_by_key distance_m all)),
         (drop (Z.to_nat n) (sort_by_key distance_m all)), all.
  split; [reflexivity|]. split; [reflexivity|].
  split; [rewrite take_drop; apply sort_by_key_perm|].
  split; [rewrite length_take, sort_by_key_length; reflexivity|].
  pose proof (sort_by_key_sorted distance_m all) as Hs.
  rewrite <- (take_drop (Z.to_nat n)) in Hs.
  exact (StronglySorted_app_cross _ _ _ Hs).
Qed.

Lemma find_nearest_returns_closest_witness :
  exists res rest all,
    find_nearest_vr_images tie_source 0 0 1 100 = Ok res
    /\ collect_results 0 0 (default [] (Some tie_records)) = Ok all
    /\ res ++ rest ≡ₚ all
    /\ length res = Nat.min (Z.to_nat 1) (length all)
    /\ forall c c', c ∈ res -> c' ∈ rest -> distance_m c <= distance_m c'.
Proof.
  apply (find_nearest_returns_closest tie_source 0 0 1 100 (Some tie_records)).
  - lia.
  - reflexivity.
  - repeat constructor; intros _; cbn; eauto.
Defined.

(** X8: every candidate the loop builds comes from a record of the source:
    its longitude and latitude are the first and the second coordinate of
    the record, its id the record's id, its viewer address is built from
    that id, its panorama flag is the record's (false when absent), and
    its [distance_m] is the haversine distance from the query point. *)
Theorem collect_results_fields (lat lon : R) (images : list raw_image)
    (all : list candidate) :
  collect_results lat lon images = Ok all ->
  Forall (fun c =>
            exists img,
              img ∈ images
              /\ usable_coords (raw_coordinates img)
                 = Some (cand_lon c, cand_lat c)
              /\ raw_id img = Some (cand_id c)
              /\ viewer_url c = viewer_url_of (cand_id c)
              /\ is_pano c = default false (raw_is_pano img)
              /\ thumb_2048_url c = raw_thumb_2048_url img
              /\ haversine_distance_m lat lon (cand_lat c) (cand_lon c)
                 = Ok (distance_m c)) all.
Proof.
  revert all. induction images as [|img images IH]; intros all.
  { intros [= <-]. constructor. }
  destruct (usable_coords (raw_coordinates img)) as [[img_lon img_lat]|] eqn:Hc.
  - rewrite (collect_results_cons_usable _ _ _ _ _ _ Hc).
    unfold getitem_id. destruct (raw_id img) as [i|] eqn:Hi; [|discriminate].
    cbn [mbind result_bind].
    destruct (collect_results lat lon images) as [rest|e]; [|discriminate].
    cbn [mbind result_bind]. intros [= <-]. constructor.
    + exists img. cbn. rewrite haversine_distance_m_total.
      split; [apply list_elem_of_here|]. split; [exact Hc|].
      split; [exact Hi|]. repeat split; reflexivity.
    + eapply Forall_impl; [apply IH; reflexivity|].
      intros c (img' & Hin & H). exists img'. split; [|exact H].
      now apply list_elem_of_further.
  - cbn [collect_results]. rewrite Hc. intros Hall.
    eapply Forall_impl; [apply IH; exact Hall|].
    intros c (img' & Hin & H). exists img'. split; [|exact H].
    now apply list_elem_of_further.
Qed.

Lemma collect_results_fields_witness :
  Forall (fun c =>
            exists img,
              img ∈ tie_records
              /\ usable_coords (raw_coordinates img)
                 = Some (cand_lon c, cand_lat c)
              /\ raw_id img = Some (cand_id c)
              /\ viewer_url c = viewer_url_of (cand_id c)
              /\ is_pano c = default false (raw_is_pano img)
              /\ thumb_2048_url c = raw_thumb_2048_url img
              /\ haversine_distance_m 0 0 (cand_lat c) (cand_lon c)
                 = Ok (distance_m c))
         [tie_candidate "b"; tie_candidate "a"].
Proof.
  apply (collect_results_fields 0 0 tie_records).
  unfold tie_records. cbn [collect_results usable_coords raw_coordinates].
  rewrite !haversine_distance_m_total, haversine_m_same. reflexivity.
Defined.

(** ** The [index] route *)

Lemma lstrip_all_space (s : string) : all_space s = true -> lstrip s = "".
Proof.
  induction s as [|c s IH]; cbn; [reflexivity|].
  intros H. apply andb_true_iff in H as [Hc Hs]. rewrite Hc. now apply IH.
Qed.

Lemma strip_all_space (s : string) : all_space s = true -> strip s = "".
Proof. intros H. unfold strip. rewrite (lstrip_all_space s H). reflexivity. Qed.



(** The form with both coordinates, on the two records at the centre. *)
Lemma index_tie_source :
  index demo_builtins tie_source (mkRequest POST demo_form)
  = Ok (mkPage (map (fun img => mkShown img 0 0)
                  [tie_candidate "b"; tie_candidate "a"])
          None "0" "0" "3").
Proof.
  unfold index. cbn [req_method req_form demo_builtins float_of int_of].
  replace (form_get demo_form "lat") with "0" by (vm_compute; reflexivity).
  replace (form_get demo_form "lon") with "0" by (vm_compute; reflexivity).
  replace (form_get demo_form "count") with "" by (vm_compute; reflexivity).
  rewrite decide_False by (intros [H|H]; discriminate H).
  rewrite decide_True by reflexivity.
  unfold index_search. rewrite find_nearest_tie_source.
  unfold index_count. rewrite decide_False by lia.
  rewrite slice_to_take by lia. reflexivity.
Qed.

Lemma index_strict_builtins :
  index strict_builtins tie_source (mkRequest POST demo_form)
  = Ok (mkPage [] (Some "Latitude, longitude and count must be valid numbers.")
          "0" "0" "3").
Proof.
  unfold index. cbn [req_method req_form strict_builtins float_of int_of].
  replace (form_get demo_form "lat") with "0" by (vm_compute; reflexivity).
  replace (form_get demo_form "lon") with "0" by (vm_compute; reflexivity).
  replace (form_get demo_form "count") with "" by (vm_compute; reflexivity).
  rewrite decide_False by (intros [H|H]; discriminate H).
  rewrite decide_True by reflexivity. reflexivity.
Qed.

(** X9: the route reports either results or an error, never both.  A GET
    gives the empty page: no results, no error, empty coordinate fields
    and the count ["3"].  A POST that returns a page gives a non-empty
    result list without an error, or an error with an empty list, and
    shows the stripped input fields again, with ["3"] for a blank
    count. *)
Theorem index_results_or_error (B : builtins) (source : RecordSource)
    (req : request) (pg : page) :
  index B source req = Ok pg ->
  match req_method req with
  | GET => pg = mkPage [] None "" "" "3"
  | POST => ((page_results pg <> [] /\ page_error pg = None)
             \/ (page_results pg = [] /\ page_error pg <> None))
            /\ lat_value pg = form_get (req_form req) "lat"
            /\ lon_value pg = form_get (req_form req) "lon"
            /\ count_value pg
               = (if decide (form_get (req_form req) "count" = "") then "3"
                  else form_get (req_form req) "count")
  end.
Proof.
  unfold index. destruct (req_method req); [now intros [= <-]|].
  destruct (decide _);
    [intros [= <-]; split; [right; split; [reflexivity|discriminate]|];
     repeat split|].
  destruct (float_of B _) as [lat|];
    [|intros [= <-]; split; [right; split; [reflexivity|discriminate]|];
      repeat split].
  destruct (float_of B _) as [lon|];
    [|intros [= <-]; split; [right; split; [reflexivity|discriminate]|];
      repeat split].
  destruct (int_of B _) as [k|];
    [|intros [= <-]; split; [right; split; [reflexivity|discriminate]|];
      repeat split].
  destruct (index_search source lat lon k) as [[|img images]|[]];
    try discriminate;
    intros [= <-]; cbn; (split; [|repeat split]);
    [right | left | right | right]; split;
      try reflexivity; discriminate.
Qed.

Lemma index_results_or_error_witness :
  (exists pg,
     index demo_builtins tie_source (mkRequest POST demo_form) = Ok pg
     /\ length (page_results pg) = 2%nat
     /\ ((page_results pg <> [] /\ page_error pg = None)
         \/ (page_results pg = [] /\ page_error pg <> None))
     /\ lat_value pg = form_get demo_form "lat"
     /\ lon_value pg = form_get demo_form "lon"
     /\ count_value pg
        = (if decide (form_get demo_form "count" = "") then "3"
           else form_get demo_form "count"))
  /\ (exists pg,
        index strict_builtins tie_source (mkRequest POST demo_form) = Ok pg
        /\ page_results pg = []
        /\ ((page_results pg <> [] /\ page_error pg = None)
            \/ (page_results pg = [] /\ page_error pg <> None))
        /\ lat_value pg = form_get demo_form "lat"
        /\ lon_value pg = form_get demo_form "lon"
        /\ count_value pg
           = (if decide (form_get demo_form "count" = "") then "3"
              else form_get demo_form "count"))
  /\ (forall pg,
        index demo_builtins tie_source (mkRequest GET demo_form) = Ok pg ->
        pg = mkPage [] None "" "" "3").
Proof.
  split; [|split].
  - eexists. split; [exact index_tie_source|]. split; [reflexivity|].
    exact (index_results_or_error _ _ _ _ index_tie_source).
  - eexists. split; [exact index_strict_builtins|]. split; [reflexivity|].
    exact (index_results_or_error _ _ _ _ index_strict_builtins).
  - intros pg Hpg.
    exact (index_results_or_error _ _ _ _ Hpg).
Defined.



(** X11: a latitude or longitude field that is missing or holds white
    space only gives the page with the request to enter both, whatever the
    source would answer. *)
Theorem index_blank_coordinates (B : builtins) (source : RecordSource)
    (form : gmap string string) :
  all_space (default "" (form !! "lat")) = true
  \/ all_space (default "" (form !! "lon")) = true ->
  exists pg,
    index B source (mkRequest POST form) = Ok pg
    /\ page_results pg = []
    /\ page_error pg = Some "Please enter both latitude and longitude.".
Proof.
  intros H. unfold index. cbn [req_method req_form].
  rewrite decide_True.
  - eexists. split; [reflexivity|]. split; reflexivity.
  - unfold form_get. destruct H as [H|H]; [left|right]; now apply strip_all_space.
Qed.

Lemma index_blank_coordinates_witness :
  exists pg,
    index (mkBuiltins (fun _ => Some 0) (fun _ => Some 3%Z) (fun _ => ""))
      tie_source (mkRequest POST {[ "lat" := "  "; "lon" := "80.1" ]}) = Ok pg
    /\ page_results pg = []
    /\ page_error pg = Some "Please enter both latitude and longitude.".
Proof.
  apply (index_blank_coordinates
           (mkBuiltins (fun _ => Some 0) (fun _ => Some 3%Z) (fun _ => ""))
           tie_source {[ "lat" := "  "; "lon" := "80.1" ]}).
  left. vm_compute. reflexivity.
Defined.

(** A result of the search is a slice of the sorted candidates of some
    list of records. *)
Lemma find_nearest_vr_images_returns (source : RecordSource) (lat lon : R)
    (n : Z) (radius_m : R) (res : list candidate) :
  find_nearest_vr_images source lat lon n radius_m = Ok res ->
  exists images all,
    collect_results lat lon images = Ok all
    /\ res = slice_to n (sort_by_key distance_m all).
Proof.
  unfold find_nearest_vr_images. rewrite bbox_from_point_ok.
  cbn [mbind result_bind].
  destruct (source _) as [data|e]; cbn [mbind result_bind]; [|discriminate].
  destruct (default [] data) as [|img images].
  - intros [= <-]. exists [], []. split; [reflexivity|].
    cbn. now rewrite slice_to_nil.
  - destruct (collect_results lat lon (img :: images)) as [all|e] eqn:Hall;
      cbn [mbind result_bind]; [|discriminate].
    intros [= <-]. exists (img :: images), all. split; [exact Hall|reflexivity].
Qed.

Lemma slice_to_is_take {A} (n : Z) (l : list A) :
  exists k, slice_to n l = take k l.
Proof. unfold slice_to. destruct (decide _); eauto. Qed.

(** The [distance_m] of every candidate the loop builds is the haversine
    distance from the query point. *)
Lemma collect_results_distances (lat lon : R) (images : list raw_image)
    (all : list candidate) :
  collect_results lat lon images = Ok all ->
  Forall (fun c =>
            haversine_distance_m lat lon (cand_lat c) (cand_lon c)
            = Ok (distance_m c)) all.
Proof.
  revert all. induction images as [|img images IH]; intros all.
  { intros [= <-]. constructor. }
  destruct (usable_coords (raw_coordinates img)) as [[img_lon img_lat]|] eqn:Hc.
  - rewrite (collect_results_cons_usable _ _ _ _ _ _ Hc).
    destruct (getitem_id img) as [i|]; [|discriminate].
    cbn [mbind result_bind].
    destruct (collect_results lat lon images) as [rest|e]; [|discriminate].
    cbn [mbind result_bind]. intros [= <-]. constructor.
    + cbn. now rewrite haversine_distance_m_total.
    + now apply IH.
  - cbn [collect_results]. rewrite Hc. apply IH.
Qed.

(** X12: when a POST shows results, the three fields parsed, there are at
    most as many results as the count (a count of 0 or less counting as 1),
    they are in non-decreasing order of distance, and each carries the
    submitted point as [input_lat] and [input_lon] and, as [distance_m],
    its haversine distance from that point. *)
Theorem index_results_annotated (B : builtins) (source : RecordSource)
    (form : gmap string string) (pg : page) :
  index B source (mkRequest POST form) = Ok pg ->
  page_results pg <> [] ->
  exists lat lon n,
    float_of B (form_get form "lat") = Some lat
    /\ float_of B (form_get form "lon") = Some lon
    /\ int_of B (if decide (form_get form "count" = "") then "3"
                 else form_get form "count") = Some n
    /\ (length (page_results pg) <= Z.to_nat (index_count n))%nat
    /\ StronglySorted (key_le distance_m) (map shown (page_results pg))
    /\ Forall (fun s =>
                 input_lat s = lat /\ input_lon s = lon
                 /\ haversine_distance_m lat lon
                      (cand_lat (shown s)) (cand_lon (shown s))
                    = Ok (distance_m (shown s))) (page_results pg).
Proof.
  unfold index. cbn [req_method req_form].
  destruct (decide _); [intros [= <-]; cbn; congruence|].
  destruct (float_of B (form_get form "lat")) as [lat|];
    [|intros [= <-]; cbn; congruence].
  destruct (float_of B (form_get form "lon")) as [lon|];
    [|intros [= <-]; cbn; congruence].
  destruct (int_of B _) as [k|]; [|intros [= <-]; cbn; congruence].
  destruct (index_search source lat lon k) as [[|img images]|[]] eqn:Hs;
    try discriminate; intros [= <-]; cbn [page_results]; try congruence.
  intros _. exists lat, lon, k. do 3 (split; [reflexivity|]).
  pose proof (index_search_bounded _ _ _ _ _ Hs) as Hlen.
  unfold index_search in Hs.
  apply find_nearest_vr_images_returns in Hs as (recs & all & Hall & Hres).
  set (res := img :: images) in *.
  destruct (slice_to_is_take (index_count k) (sort_by_key distance_m all))
    as [m Hm].
  rewrite Hm in Hres.
  set (f := fun img0 : candidate =>
              {| shown := img0; input_lat := lat; input_lon := lon |}).
  assert (H1 : (length (map f res) <= Z.to_nat (index_count k))%nat)
    by now rewrite length_map.
  assert (H2 : StronglySorted (key_le distance_m) (map shown (map f res))).
  { rewrite map_map.
    change (map (fun x => shown (f x)) res)
      with (map (fun x : candidate => x) res).
    rewrite map_id, Hres. apply StronglySorted_take, sort_by_key_sorted. }
  assert (H3 : Forall (fun s =>
                 input_lat s = lat /\ input_lon s = lon
                 /\ haversine_distance_m lat lon
                      (cand_lat (shown s)) (cand_lon (shown s))
                    = Ok (distance_m (shown s))) (map f res)).
  { apply Forall_map. rewrite Hres. apply Forall_take.
    rewrite sort_by_key_perm.
    eapply Forall_impl; [apply (collect_results_distances _ _ _ _ Hall)|].
    cbn. auto. }
  split; [exact H1|]. split; [exact H2|exact H3].
Qed.

Lemma index_results_annotated_witness :
  exists pg lat lon n,
    index (mkBuiltins (fun _ => Some 0) (fun _ => Some 5%Z) (fun _ => ""))
      tie_source (mkRequest POST {[ "lat" := "0"; "lon" := "0" ]}) = Ok pg
    /\ float_of (mkBuiltins (fun _ => Some 0) (fun _ => Some 5%Z) (fun _ => ""))
         (form_get {[ "lat" := "0"; "lon" := "0" ]} "lat") = Some lat
    /\ float_of (mkBuiltins (fun _ => Some 0) (fun _ => Some 5%Z) (fun _ => ""))
         (form_get {[ "lat" := "0"; "lon" := "0" ]} "lon") = Some lon
    /\ int_of (mkBuiltins (fun _ => Some 0) (fun _ => Some 5%Z) (fun _ => ""))
         (if decide (form_get {[ "lat" := "0"; "lon" := "0" ]} "count" = "")
          then "3" else form_get {[ "lat" := "0"; "lon" := "0" ]} "count")
       = Some n
    /\ (length (page_results pg) <= Z.to_nat (index_count n))%nat
    /\ StronglySorted (key_le distance_m) (map shown (page_results pg))
    /\ Forall (fun s =>
                 input_lat s = lat /\ input_lon s = lon
                 /\ haversine_distance_m lat lon
                      (cand_lat (shown s)) (cand_lon (shown s))
                    = Ok (distance_m (shown s))) (page_results pg).
Proof.
  assert (Hidx :
    index (mkBuiltins (fun _ => Some 0) (fun _ => Some 5%Z) (fun _ => ""))
      tie_source (mkRequest POST {[ "lat" := "0"; "lon" := "0" ]})
    = Ok (mkPage (map (fun img => mkShown img 0 0)
                    [tie_candidate "b"; tie_candidate "a"])
            None "0" "0" "3")).
  { unfold index. cbn [req_method req_form float_of int_of].
    replace (form_get {[ "lat" := "0"; "lon" := "0" ]} "lat") with "0"
      by (vm_compute; reflexivity).
    replace (form_get {[ "lat" := "0"; "lon" := "0" ]} "lon") with "0"
      by (vm_compute; reflexivity).
    replace (form_get {[ "lat" := "0"; "lon" := "0" ]} "count") with ""
      by (vm_compute; reflexivity).
    rewrite decide_False by (intros [H|H]; discriminate H).
    rewrite decide_True by reflexivity.
    unfold index_search. rewrite find_nearest_tie_source.
    unfold index_count. rewrite decide_False by lia.
    rewrite slice_to_take by lia. reflexivity. }
  eexists.
  destruct (index_results_annotated _ _ _ _ Hidx) as (lat & lon & n & H);
    [discriminate|].
  exists lat, lon, n. split; [exact Hidx|exact H].
Defined.

(** ** The panorama cache *)

Lemma load_pano_raises (E : env) (image_id image_url : string) (w w1 : world)
    (e : exn) :
  load_pano E image_id image_url w = (Raise e, w1) ->
  generate_normal_views_for_pano E image_id image_url w = (Raise e, w1).
Proof.
  intros H. unfold generate_normal_views_for_pano.
  unfold mbind at 1, M_bind at 1. now rewrite H.
Qed.

(** X13: when the panorama is not cached and the request fails or is
    answered with an error status, the call raises [RequestException]
    after one request and writes no file, so that a later call requests
    again. *)
Theorem generate_failed_request (E : env) (image_id image_url : string)
    (w : world) :
  fs w !! pano_path_of image_id = None ->
  (http_get E image_url = NoResponse
   \/ exists chunks stream_ok,
        http_get E image_url = Response false chunks stream_ok) ->
  generate_normal_views_for_pano E image_id image_url w
  = (Raise RequestException,
     {| fs := fs w; net_log := net_log w ++ [image_url] |}).
Proof.
  intros Hf Hget. apply load_pano_raises. unfold load_pano.
  rewrite decide_False by (rewrite Hf; intros [? [=]]).
  unfold mbind, M_bind, download.
  destruct Hget as [->|(chunks & stream_ok & ->)]; reflexivity.
Qed.

Lemma generate_failed_request_witness :
  generate_normal_views_for_pano demo_env "7" "https://host/7" demo_world
  = (Raise RequestException,
     {| fs := fs demo_world;
        net_log := net_log demo_world ++ ["https://host/7"] |}).
Proof.
  apply (generate_failed_request demo_env "7" "https://host/7" demo_world).
  - vm_compute. reflexivity.
  - left. reflexivity.
Defined.

(** X14: the cache file is not written atomically: when the stream breaks
    after some chunks, the call raises and leaves the chunks received as
    the panorama file, and every later call for the id reads that
    truncated file without a request. *)
Theorem generate_broken_stream (E : env) (image_id image_url : string)
    (w : world) (chunks : list (list byte)) :
  fs w !! pano_path_of image_id = None ->
  http_get E image_url = Response true chunks false ->
  exists w1,
    generate_normal_views_for_pano E image_id image_url w
    = (Raise RequestException, w1)
    /\ fs w1 !! pano_path_of image_id
       = Some (concat (filter (fun chunk => chunk ≠ []) chunks))
    /\ net_log w1 = net_log w ++ [image_url]
    /\ forall url,
         load_pano E image_id url w1
         = (Ok (imdecode E (concat (filter (fun chunk => chunk ≠ []) chunks))),
            w1).
Proof.
  intros Hf Hget. eexists. split.
  { apply load_pano_raises. unfold load_pano.
    rewrite decide_False by (rewrite Hf; intros [? [=]]).
    unfold mbind, M_bind, download. rewrite Hget. reflexivity. }
  cbn [fs net_log]. split; [apply lookup_insert_eq|]. split; [reflexivity|].
  intros url. apply load_pano_cached. cbn. apply lookup_insert_eq.
Qed.

Lemma generate_broken_stream_witness :
  exists w1,
    generate_normal_views_for_pano
      (mkEnv (fun _ => Response true [[x00]; []; [x01]] false)
             (fun _ => None) (fun _ => []) (fun p => p))
      "7" "https://host/7" demo_world
    = (Raise RequestException, w1)
    /\ fs w1 !! pano_path_of "7"
       = Some (concat (filter (fun chunk => chunk ≠ []) [[x00]; []; [x01]]))
    /\ net_log w1 = net_log demo_world ++ ["https://host/7"]
    /\ forall url,
         load_pano
           (mkEnv (fun _ => Response true [[x00]; []; [x01]] false)
                  (fun _ => None) (fun _ => []) (fun p => p))
           "7" url w1
         = (Ok (imdecode
                  (mkEnv (fun _ => Response true [[x00]; []; [x01]] false)
                         (fun _ => None) (fun _ => []) (fun p => p))
                  (concat (filter (fun chunk => chunk ≠ [])
                             [[x00]; []; [x01]]))),
            w1).
Proof.
  apply (generate_broken_stream
           (mkEnv (fun _ => Response true [[x00]; []; [x01]] false)
                  (fun _ => None) (fun _ => []) (fun p => p))
           "7" "https://host/7" demo_world [[x00]; []; [x01]]).
  - vm_compute. reflexivity.
  - reflexivity.
Defined.

(** X15: a call makes no request when the panorama file exists and exactly
    one, for the given address, when it does not, whether or not the call
    succeeds. *)
Theorem generate_request_count (E : env) (image_id image_url : string)
    (w : world) :
  net_log (generate_normal_views_for_pano E image_id image_url w).2
  = net_log w
    ++ (if decide (is_Some (fs w !! pano_path_of image_id)) then []
        else [image_url]).
Proof.
  unfold generate_normal_views_for_pano. unfold mbind at 1, M_bind at 1.
  assert (Hload :
    net_log (load_pano E image_id image_url w).2
    = net_log w
      ++ (if decide (is_Some (fs w !! pano_path_of image_id)) then []
          else [image_url])).
  { unfold load_pano. destruct (decide _) as [[c Hc]|Hn].
    - unfold mbind, M_bind, mret, M_ret, imread. cbn. now rewrite app_nil_r.
    - unfold mbind, M_bind, download, imread.
      destruct (http_get E image_url) as [|[|] chunks [|]]; reflexivity. }
  destruct (load_pano E image_id image_url w) as [[[pano|]|e] w0];
    cbn [snd] in *; try exact Hload.
  rewrite <- Hload. apply render_views_frame.
Qed.

(** X16: a cached file that does not decode is never replaced: every call
    for the id returns the empty dictionary, requests nothing and writes
    nothing. *)
Theorem generate_undecodable (E : env) (image_id image_url : string)
    (w : world) (content : list byte) :
  fs w !! pano_path_of image_id = Some content ->
  imdecode E content = None ->
  generate_normal_views_for_pano E image_id image_url w = (Ok ∅, w).
Proof.
  intros Hf Hdec. unfold generate_normal_views_for_pano.
  unfold mbind, M_bind. rewrite (load_pano_cached _ _ _ _ _ Hf), Hdec.
  reflexivity.
Qed.

Lemma generate_undecodable_witness :
  generate_normal_views_for_pano
    (mkEnv (fun _ => NoResponse) (fun _ => None) (fun _ => []) (fun p => p))
    "42" "https://host/42" demo_world
  = (Ok ∅, demo_world).
Proof.
  apply (generate_undecodable
           (mkEnv (fun _ => NoResponse) (fun _ => None) (fun _ => [])
                  (fun p => p))
           "42" "https://host/42" demo_world []).
  - vm_compute. reflexivity.
  - reflexivity.
Defined.

Lemma render_views_other_files (E : env) (image_id : string) (pano : image)
    (yaws : list Z) (results : gmap string string) (w : world)
    (path : string) :
  (forall yaw, yaw ∈ yaws -> path <> out_path_of image_id (view_name yaw)) ->
  fs (render_views E image_id pano results yaws w).2 !! path = fs w !! path.
Proof.
  revert results w. induction yaws as [|yaw yaws IH]; intros results w Hp.
  - reflexivity.
  - cbn [render_views]. unfold mbind, M_bind. rewrite render_view_frame.
    destruct (perspective_from_equirect _ _ _ _ _ _) as [view|e];
      [|reflexivity].
    rewrite IH by (intros y Hy; apply Hp; now right). cbn.
    apply lookup_insert_ne. intros H. apply (Hp yaw); [left|now symmetry].
Qed.

(** X17: a call touches only the files of its image: every path other
    than the panorama file and the four view files of the id keeps its
    content (or its absence), and a panorama file that exists is kept as
    it is. *)
Theorem generate_touches_own_files (E : env) (image_id image_url : string)
    (w : world) :
  (forall path,
     path <> pano_path_of image_id ->
     (forall yaw, yaw ∈ yaw_list ->
                  path <> out_path_of image_id (view_name yaw)) ->
     fs (generate_normal_views_for_pano E image_id image_url w).2 !! path
     = fs w !! path)
  /\ (forall content,
        fs w !! pano_path_of image_id = Some content ->
        fs (generate_normal_views_for_pano E image_id image_url w).2
          !! pano_path_of image_id = Some content).
Proof.
  split.
  - intros path Hpano Hviews.
    unfold generate_normal_views_for_pano. unfold mbind at 1, M_bind at 1.
    assert (Hload : fs (load_pano E image_id image_url w).2 !! path
                    = fs w !! path).
    { unfold load_pano. destruct (decide _) as [[c Hc]|Hn].
      - reflexivity.
      - unfold mbind, M_bind, download, imread.
        destruct (http_get E image_url) as [|[|] chunks [|]]; cbn;
          try reflexivity; now apply lookup_insert_ne. }
    destruct (load_pano E image_id image_url w) as [[[pano|]|e] w0];
      cbn [snd] in *; try exact Hload.
    rewrite <- Hload. now apply render_views_other_files.
  - intros content Hc.
    unfold generate_normal_views_for_pano. unfold mbind at 1, M_bind at 1.
    rewrite (load_pano_cached _ _ _ _ _ Hc).
    destruct (imdecode E content) as [pano|]; [|exact Hc].
    rewrite <- Hc. apply render_views_frame.
Qed.

(** ** The detection endpoints *)

Lemma pano_present_Some {S D C} (T : detector S D C)
    (pano_path : option string) (s : S) (p : string) :
  pano_present T pano_path s = Some p ->
  pano_path = Some p /\ p <> "" /\ path_exists T p s = true.
Proof.
  unfold pano_present. destruct pano_path as [q|]; [|discriminate].
  destruct (decide (q = "")); [discriminate|].
  destruct (path_exists T q s) eqn:He; [|discriminate].
  intros [= <-]. auto.
Qed.

(** X18: when the loop of [panos_detect_objects_api] returns, it reports
    on every image, in order: there is one entry per image with the id of
    the image; an entry holds a detection only if the panorama was
    downloaded and its path is not empty, and then names that path; the
    other entries say whether the file is missing or the panorama was not
    downloaded. *)
Theorem detect_objects_reports {S D C} (T : detector S D C)
    (labels : list string) (images : list pano_entry) (s s' : S)
    (dets : list (detected_object D)) :
  detect_objects T labels images s = (Ok dets, s') ->
  Forall2 reports images dets.
Proof.
  revert s dets. induction images as [|img images IH]; intros s dets.
  { intros [= <-]. constructor. }
  cbn [detect_objects]. destruct (entry_downloaded img) eqn:Hd.
  - destruct (pano_present T (entry_pano_path img) s) as [p|] eqn:Hp.
    + destruct (run_object_detection T p labels s) as [[d|e] s1];
        [|discriminate].
      destruct (detect_objects T labels images s1) as [[rest|e] s2] eqn:Hrest;
        [|discriminate].
      intros [= <- <-]. constructor; [|eapply IH, Hrest].
      apply pano_present_Some in Hp as (Hp & Hne & _).
      split; [reflexivity|]. cbn. eauto.
    + destruct (detect_objects T labels images s) as [[rest|e] s2] eqn:Hrest;
        [|discriminate].
      intros [= <- <-]. constructor; [|eapply IH, Hrest].
      split; [reflexivity|]. cbn. auto.
  - destruct (detect_objects T labels images s) as [[rest|e] s2] eqn:Hrest;
      [|discriminate].
    intros [= <- <-]. constructor; [|eapply IH, Hrest].
    split; [reflexivity|]. cbn. auto.
Qed.

Lemma detect_objects_reports_witness :
  Forall2 reports demo_entries
    [ mkDetected (Some "a") (Some "panos/a.jpg") (Detected 4%nat);
      mkDetected (Some "b") None PanoNotDownloaded;
      mkDetected (Some "c") (Some "") PanoImageNotFound ].
Proof.
  apply (detect_objects_reports (demo_detector (Ok 4%nat) (Ok 0%nat))
           ["tree"] demo_entries () ()).
  reflexivity.
Defined.

Lemma classify_crops_entries {S D C} (T : detector S D C)
    (crop_images : list string) (s : S) :
  map crop_image (classify_crops T crop_images s).1 = crop_images.
Proof.
  revert s. induction crop_images as [|crop crops IH]; intros s; cbn;
    [reflexivity|].
  destruct (classify_crop T crop s) as [r s1].
  specialize (IH s1). destruct (classify_crops T crops s1) as [rest s2].
  cbn in *. rewrite IH. now destruct r.
Qed.

(** X19: when the loop of [panos_detect_and_classify_api] returns, its
    [detected_objects] report on every image as those of
    [panos_detect_objects_api] do, and [classify_results] holds, in order,
    one entry for each image on which the detection ran, under the id of
    that image. *)
Theorem detect_and_classify_reports {S D C} (T : detector S D C)
    (labels : list string) (images : list pano_entry) (s s' : S)
    (dets : list (detected_object D)) (clss : list (classify_result C)) :
  detect_and_classify T labels images s = (Ok (dets, clss), s') ->
  Forall2 reports images dets
  /\ map cls_pano_id clss
     = map det_pano_id (filter (fun d => is_detected d = true) dets).
Proof.
  revert s dets clss.
  induction images as [|img images IH]; intros s dets clss.
  { intros [= <- <-]. split; [constructor|reflexivity]. }
  cbn [detect_and_classify]. destruct (entry_downloaded img) eqn:Hd.
  - destruct (pano_present T (entry_pano_path img) s) as [p|] eqn:Hp.
    + destruct (run_object_detection T p labels s) as [[d|e] s1];
        [|discriminate].
      destruct (classify_crops T (glob_crops T p s1) s1) as [crops s2].
      destruct (detect_and_classify T labels images s2)
        as [[[dets' clss']|e] s3] eqn:Hrest; [|discriminate].
      intros [= <- <- <-]. destruct (IH _ _ _ Hrest) as [IH1 IH2]. split.
      * constructor; [|exact IH1].
        apply pano_present_Some in Hp as (Hp & Hne & _).
        split; [reflexivity|]. cbn. eauto.
      * rewrite filter_cons. cbn. now rewrite IH2.
    + destruct (detect_and_classify T labels images s)
        as [[[dets' clss']|e] s3] eqn:Hrest; [|discriminate].
      intros [= <- <- <-]. destruct (IH _ _ _ Hrest) as [IH1 IH2]. split.
      * constructor; [|exact IH1]. split; [reflexivity|]. cbn. auto.
      * rewrite filter_cons. cbn. exact IH2.
  - destruct (detect_and_classify T labels images s)
      as [[[dets' clss']|e] s3] eqn:Hrest; [|discriminate].
    intros [= <- <- <-]. destruct (IH _ _ _ Hrest) as [IH1 IH2]. split.
    * constructor; [|exact IH1]. split; [reflexivity|]. cbn. auto.
    * rewrite filter_cons. cbn. exact IH2.
Qed.

Lemma detect_and_classify_reports_witness :
  Forall2 reports demo_entries
    [ mkDetected (Some "a") (Some "panos/a.jpg") (Detected 4%nat);
      mkDetected (Some "b") None PanoNotDownloaded;
      mkDetected (Some "c") (Some "") PanoImageNotFound ]
  /\ map (@cls_pano_id nat)
       [ mkClassify (Some "a")
           [ mkCrop "c1.jpg" (inr "error"); mkCrop "c2.jpg" (inr "error") ] ]
     = map det_pano_id
         (filter (fun d : detected_object nat => is_detected d = true)
            [ mkDetected (Some "a") (Some "panos/a.jpg") (Detected 4%nat);
              mkDetected (Some "b") None PanoNotDownloaded;
              mkDetected (Some "c") (Some "") PanoImageNotFound ]).
Proof.
  apply (detect_and_classify_reports
           (demo_detector (Ok 4%nat) (Raise ValueError))
           ["tree"] demo_entries () ()).
  reflexivity.
Defined.

(** X20: failures of the plant classifier never abort
    [panos_detect_and_classify_api]: every crop gets its entry, with the
    classification or with the error text, and the loop over the images
    can fail only with the exception of a failed object detection. *)
Theorem detect_and_classify_failures {S D C} (T : detector S D C)
    (labels : list string) :
  (forall crop_images s,
     map crop_image (classify_crops T crop_images s).1 = crop_images)
  /\ (forall images s e s',
        detect_and_classify T labels images s = (Raise e, s') ->
        exists p s0,
          (run_object_detection T p labels s0).1 = Raise e).
Proof.
  split; [apply classify_crops_entries|].
  induction images as [|img images IH]; intros s e s'; [discriminate|].
  cbn [detect_and_classify]. destruct (entry_downloaded img).
  - destruct (pano_present T (entry_pano_path img) s) as [p|].
    + destruct (run_object_detection T p labels s) as [[d|e'] s1] eqn:Hrun.
      * destruct (classify_crops T (glob_crops T p s1) s1) as [crops s2].
        destruct (detect_and_classify T labels images s2)
          as [[[dets' clss']|e'] s3] eqn:Hrest; [discriminate|].
        intros [= <- <-]. eapply IH, Hrest.
      * intros [= <- <-]. exists p, s. now rewrite Hrun.
    + destruct (detect_and_classify T labels images s)
        as [[[dets' clss']|e'] s3] eqn:Hrest; [discriminate|].
      intros [= <- <-]. eapply IH, Hrest.
  - destruct (detect_and_classify T labels images s)
      as [[[dets' clss']|e'] s3] eqn:Hrest; [discriminate|].
    intros [= <- <-]. eapply IH, Hrest.
Qed.

(** ** The reprojection *)




(** *** The pixel on the optical axis *)

Lemma tan_scaled (r psi : R) :
  0 < r -> cos psi <> 0 -> r * sin psi / (r * cos psi) = tan psi.
Proof. intros Hr Hc. unfold tan. field. split; lra. Qed.

(** [atan2] recovers the angle of a point given in polar form. *)
Lemma atan2_polar (r psi : R) :
  0 < r -> - PI < psi <= PI ->
  math.atan2 (r * sin psi) (r * cos psi) = psi.
Proof.
  intros Hr [Hlo Hhi]. pose proof PI_RGT_0 as Hpi.
  destruct (Rlt_dec psi (- (PI / 2))) as [H1|H1].
  { (* third quadrant *)
    assert (Hc : cos psi < 0).
    { rewrite <- cos_neg. apply cos_lt_0; lra. }
    assert (Hs : sin psi < 0) by (apply sin_lt_0_var; lra).
    unfold math.atan2.
    destruct (Rlt_dec 0 (r * cos psi)) as [H|_]; [nra|].
    destruct (Rlt_dec (r * cos psi) 0) as [_|H]; [|nra].
    destruct (Rle_dec 0 (r * sin psi)) as [H|_]; [nra|].
    rewrite tan_scaled by lra.
    replace (tan psi) with (tan (psi + PI)).
    - rewrite atan_tan by lra. lra.
    - unfold tan. rewrite neg_sin, neg_cos. field. lra. }
  destruct (Req_dec_T psi (- (PI / 2))) as [->|H2].
  { rewrite cos_neg, sin_neg, cos_PI2, sin_PI2. unfold math.atan2.
    rewrite Rmult_0_r.
    destruct (Rlt_dec 0 0) as [H|_]; [lra|].
    destruct (Rlt_dec 0 (r * - (1))) as [H|_]; [lra|].
    destruct (Rlt_dec (r * - (1)) 0) as [_|H]; [reflexivity|lra]. }
  destruct (Rlt_dec psi (PI / 2)) as [H3|H3].
  { assert (Hc : 0 < cos psi) by (apply cos_gt_0; lra).
    rewrite atan2_pos by nra. rewrite tan_scaled by lra.
    apply atan_tan. lra. }
  destruct (Req_dec_T psi (PI / 2)) as [->|H4].
  { rewrite cos_PI2, sin_PI2. unfold math.atan2. rewrite Rmult_0_r.
    destruct (Rlt_dec 0 0) as [H|_]; [lra|].
    destruct (Rlt_dec 0 (r * 1)) as [_|H]; [reflexivity|lra]. }
  (* second quadrant *)
  assert (Hc : cos psi < 0) by (apply cos_lt_0; lra).
  assert (Hs : 0 <= sin psi) by (apply sin_ge_0; lra).
  unfold math.atan2.
  destruct (Rlt_dec 0 (r * cos psi)) as [H|_]; [nra|].
  destruct (Rlt_dec (r * cos psi) 0) as [_|H]; [|nra].
  destruct (Rle_dec 0 (r * sin psi)) as [_|H]; [|nra].
  rewrite tan_scaled by lra.
  assert (E : tan psi = tan (psi - PI)).
  { pose proof (neg_cos (psi - PI)) as Hq.
    replace (psi - PI + PI) with psi in Hq by ring.
    set (q := psi - PI) in *. replace psi with (q + PI) by (unfold q; ring).
    unfold tan. rewrite neg_sin, neg_cos. field. lra. }
  rewrite E, atan_tan by lra. lra.
Qed.

(** The ray through the origin of the grid maps to the column of the yaw
    and to the row of the pitch, with the row growing with the pitch. *)
Lemma pano_coords_center (h_in w_in : nat) (yaw_deg pitch_deg f : R) :
  0 < f -> -180 < yaw_deg <= 180 -> -90 < pitch_deg < 90 ->
  pano_coords h_in w_in (math.radians yaw_deg) (math.radians pitch_deg) f 0 0
  = ((yaw_deg / 360 + 1 / 2) * INR w_in,
     (1 / 2 + pitch_deg / 180) * INR h_in).
Proof.
  intros Hf Hyaw Hpitch. pose proof PI_RGT_0 as Hpi.
  unfold pano_coords, ray_angles. cbv zeta. cbn [fst snd].
  replace (0 * 0 + - 0 * - 0 + f * 1 * (f * 1)) with (f * f) by ring.
  rewrite sqrt_square by lra.
  replace (f * 1 / f) with 1 by (field; lra).
  set (p := math.radians pitch_deg). set (y := math.radians yaw_deg).
  assert (Hp : - (PI / 2) < p < PI / 2).
  { unfold p, math.radians. split.
    - replace (- (PI / 2)) with (-90 * (PI / 180)) by field.
      apply Rmult_lt_compat_r; lra.
    - replace (PI / 2) with (90 * (PI / 180)) by field.
      apply Rmult_lt_compat_r; lra. }
  assert (Hy : - PI < y <= PI).
  { unfold y, math.radians. split.
    - replace (- PI) with (-180 * (PI / 180)) by field.
      apply Rmult_lt_compat_r; lra.
    - replace PI with (180 * (PI / 180)) at 2 by field.
      apply Rmult_le_compat_r; lra. }
  assert (Hcp : 0 < cos p) by (apply cos_gt_0; lra).
  replace (0 / f * cos y + (- 0 / f * sin p + 1 * cos p) * sin y)
    with (cos p * sin y) by (unfold Rdiv; ring).
  replace (- (0 / f) * sin y + (- 0 / f * sin p + 1 * cos p) * cos y)
    with (cos p * cos y) by (unfold Rdiv; ring).
  replace (- 0 / f * cos p - 1 * sin p) with (- sin p) by (unfold Rdiv; ring).
  rewrite atan2_polar by assumption.
  rewrite asin_opp, asin_sin by lra.
  replace (y / (2 * PI)) with (yaw_deg / 360)
    by (unfold y, math.radians; field; lra).
  replace (- p / PI) with (- (pitch_deg / 180))
    by (unfold p, math.radians; field; lra).
  f_equal; lra.
Qed.

Lemma linspace_center (half : R) (a : nat) (xs : list R) (xg : R) :
  (1 <= a)%nat ->
  np.linspace (- half) half (2 * Z.of_nat a + 1) = Ok xs ->
  xs !! a = Some xg -> xg = 0.
Proof.
  intros Ha. unfold np.linspace. rewrite decide_False by lia.
  intros [= <-]. rewrite list_lookup_fmap.
  rewrite lookup_seq_lt by lia. cbn. intros [= <-].
  rewrite plus_IZR, mult_IZR, <- INR_IZR_INZ.
  assert (Hpos : 0 < INR a) by (apply lt_0_INR; lia).
  field. lra.
Qed.

(** X22: in a view of odd width and height (3 or more) that passes the
    size assertion of [cv2.remap], with a yaw in (-180, 180] and a pitch
    strictly between -90 and 90 degrees, the central pixel is the sample of the panorama at the column
    [(yaw/360 + 1/2) * width] and the row [(1/2 + pitch/180) * height]:
    yaw 0 and pitch 0 give the centre of the panorama, yaw 180 its right
    edge, and a positive pitch a row below the horizon. *)
Theorem perspective_center_pixel (pano : image)
    (yaw_deg pitch_deg fov_deg : R) (a b : nat) :
  0 < fov_deg < 180 -> -180 < yaw_deg <= 180 -> -90 < pitch_deg < 90 ->
  (1 <= a)%nat -> (1 <= b)%nat ->
  within_remap_limit pano (2 * Z.of_nat a + 1) (2 * Z.of_nat b + 1) ->
  exists view px,
    perspective_from_equirect pano yaw_deg pitch_deg fov_deg
      (2 * Z.of_nat a + 1) (2 * Z.of_nat b + 1) = Ok view
    /\ view !! b ≫= (.!! a) = Some px
    /\ px = cv2.sample pano
              ((yaw_deg / 360 + 1 / 2) * INR (shape_w pano))
              ((1 / 2 + pitch_deg / 180) * INR (shape_h pano)).
Proof.
  intros Hfov Hyaw Hpitch Ha Hb Hlim.
  destruct (perspective_from_equirect_ok pano yaw_deg pitch_deg fov_deg
              (2 * Z.of_nat a + 1) (2 * Z.of_nat b + 1) Hfov)
    as (view & Hview & Hshape & _); [lia|lia|exact Hlim|].
  destruct (grid_shape_lookup view _ _ b a Hshape) as [px Hpx]; [lia|lia|].
  exists view, px. split; [exact Hview|]. split; [exact Hpx|].
  destruct (perspective_pixel _ _ _ _ _ _ _ _ _ _ Hview Hpx)
    as (xs & ys & xg & yg & Hxs & Hys & Hxg & Hyg & ->).
  replace (- IZR (2 * Z.of_nat a + 1) / 2)
    with (- (IZR (2 * Z.of_nat a + 1) / 2)) in Hxs by (unfold Rdiv; ring).
  replace (- IZR (2 * Z.of_nat b + 1) / 2)
    with (- (IZR (2 * Z.of_nat b + 1) / 2)) in Hys by (unfold Rdiv; ring).
  rewrite (linspace_center _ _ _ _ Ha Hxs Hxg).
  rewrite (linspace_center _ _ _ _ Hb Hys Hyg).
  assert (Hf : 0 < 0.5 * IZR (2 * Z.of_nat a + 1)
                   / tan (math.radians fov_deg / 2)).
  { apply Rdiv_lt_0_compat; [|now apply tan_half_fov_pos].
    assert (0 < IZR (2 * Z.of_nat a + 1)) by (apply IZR_lt; lia). lra. }
  now rewrite (pano_coords_center _ _ _ _ _ Hf Hyaw Hpitch).
Qed.

Lemma perspective_center_pixel_witness :
  exists view px,
    perspective_from_equirect two_row_pano 180 30 90
      (2 * Z.of_nat 1 + 1) (2 * Z.of_nat 1 + 1) = Ok view
    /\ view !! 1%nat ≫= (.!! 1%nat) = Some px
    /\ px = cv2.sample two_row_pano
              ((180 / 360 + 1 / 2) * INR (shape_w two_row_pano))
              ((1 / 2 + 30 / 180) * INR (shape_h two_row_pano)).
Proof.
  apply (perspective_center_pixel two_row_pano 180 30 90 1 1);
    first [lra | lia | unfold within_remap_limit, cv2.SHRT_MAX; cbn; lia].
Defined.

(** *** Pixel values *)

(** A tap inside a well-shaped raster reads one of its pixels. *)
Lemma at_well_shaped (src : image) (h w c : nat) (row col : Z) :
  well_shaped src h w c ->
  (0 <= row < Z.of_nat h)%Z -> (0 <= col < Z.of_nat w)%Z ->
  exists r px,
    src !! Z.to_nat row = Some r /\ r !! Z.to_nat col = Some px
    /\ cv2.at_ src row col = px /\ length px = c.
Proof.
  intros [Hlen Hrows] Hr Hc.
  destruct (lookup_lt_is_Some_2 src (Z.to_nat row)) as [r Hrow]; [lia|].
  pose proof (Forall_lookup_1 _ _ _ _ Hrows Hrow) as [Hw Hpx].
  destruct (lookup_lt_is_Some_2 r (Z.to_nat col)) as [px Hcol];
    [unfold pixel in *; lia|].
  exists r, px. split; [exact Hrow|]. split; [exact Hcol|].
  split; [unfold cv2.at_, image, pixel in *; now rewrite Hrow; cbn; rewrite Hcol|].
  exact (Forall_lookup_1 _ _ _ _ Hpx Hcol).
Qed.

Lemma at_within (src : image) (h w c : nat) (lo hi : R) (row col : Z)
    (k : nat) :
  well_shaped src h w c -> image_within lo hi src ->
  (0 <= row < Z.of_nat h)%Z -> (0 <= col < Z.of_nat w)%Z -> (k < c)%nat ->
  lo <= nth k (cv2.at_ src row col) 0 <= hi.
Proof.
  intros Hws Hin Hr Hc Hk.
  destruct (at_well_shaped src h w c row col Hws Hr Hc)
    as (r & px & Hrow & Hcol & -> & Hlen).
  pose proof (Forall_lookup_1 _ _ _ _ Hin Hrow) as Hrw.
  pose proof (Forall_lookup_1 _ _ _ _ Hrw Hcol) as Hpx.
  destruct (lookup_lt_is_Some_2 px k) as [v Hv]; [lia|].
  rewrite (nth_lookup_Some _ _ _ _ Hv).
  exact (Forall_lookup_1 _ _ _ _ Hpx Hv).
Qed.

(** A bilinear sample is a weighted mean of its four taps: it stays within
    the bounds of the source values. *)
Lemma sample_within (src : image) (h w c : nat) (lo hi sx sy : R) :
  well_shaped src h w c -> (0 < h)%nat -> (0 < w)%nat ->
  image_within lo hi src ->
  Forall (fun v => lo <= v <= hi) (cv2.sample src sx sy).
Proof.
  intros Hws Hh Hw Hin.
  destruct (well_shaped_shape src h w c Hws Hh Hw) as (Eh & Ew & Ec).
  unfold cv2.sample. rewrite Eh, Ew, Ec. cbv zeta.
  apply Forall_fmap, Forall_forall. intros k Hk.
  apply elem_of_seq in Hk as [_ Hk]. cbn in Hk.
  unfold cv2.taps, cv2.weights, cv2.border_wrap, compose.
  cbn [map zip_with foldr fst snd].
  pose proof (base_fp sx) as [Hx0 Hx1]. pose proof (base_fp sy) as [Hy0 Hy1].
  set (fx := frac_part sx) in *. set (fy := frac_part sy) in *.
  assert (Hrow0 : (0 <= Int_part sy `mod` Z.of_nat h < Z.of_nat h)%Z)
    by (apply Z.mod_pos_bound; lia).
  assert (Hrow1 : (0 <= (Int_part sy + 1) `mod` Z.of_nat h < Z.of_nat h)%Z)
    by (apply Z.mod_pos_bound; lia).
  assert (Hcol0 : (0 <= Int_part sx `mod` Z.of_nat w < Z.of_nat w)%Z)
    by (apply Z.mod_pos_bound; lia).
  assert (Hcol1 : (0 <= (Int_part sx + 1) `mod` Z.of_nat w < Z.of_nat w)%Z)
    by (apply Z.mod_pos_bound; lia).
  pose proof (at_within src h w c lo hi _ _ k Hws Hin Hrow0 Hcol0 Hk) as H00.
  pose proof (at_within src h w c lo hi _ _ k Hws Hin Hrow0 Hcol1 Hk) as H01.
  pose proof (at_within src h w c lo hi _ _ k Hws Hin Hrow1 Hcol0 Hk) as H10.
  pose proof (at_within src h w c lo hi _ _ k Hws Hin Hrow1 Hcol1 Hk) as H11.
  match goal with
  | |- lo <= ?w0 * ?v0 + (?w1 * ?v1 + (?w2 * ?v2 + (?w3 * ?v3 + 0))) <= hi =>
      set (a0 := v0) in *; set (a1 := v1) in *;
      set (a2 := v2) in *; set (a3 := v3) in *
  end.
  assert (W0 : 0 <= (1 - fx) * (1 - fy)) by (apply Rmult_le_pos; lra).
  assert (W1 : 0 <= fx * (1 - fy)) by (apply Rmult_le_pos; lra).
  assert (W2 : 0 <= (1 - fx) * fy) by (apply Rmult_le_pos; lra).
  assert (W3 : 0 <= fx * fy) by (apply Rmult_le_pos; lra).
  assert (Wsum : (1 - fx) * (1 - fy) + fx * (1 - fy) + (1 - fx) * fy + fx * fy
                 = 1) by ring.
  set (w0 := (1 - fx) * (1 - fy)) in *. set (w1 := fx * (1 - fy)) in *.
  set (w2 := (1 - fx) * fy) in *. set (w3 := fx * fy) in *.
  split; nra.
Qed.

(** X23: the projection invents no values: when every channel value of a
    well-shaped panorama lies between [lo] and [hi], so does every channel
    value of the view (a panorama of one colour gives a view of that
    colour). *)
Theorem perspective_keeps_range (pano view : image) (h w c : nat)
    (lo hi yaw_deg pitch_deg fov_deg : R) (out_w out_h : Z) :
  well_shaped pano h w c -> (0 < h)%nat -> (0 < w)%nat ->
  image_within lo hi pano ->
  perspective_from_equirect pano yaw_deg pitch_deg fov_deg out_w out_h
  = Ok view ->
  image_within lo hi view.
Proof.
  intros Hws Hh Hw Hin. unfold perspective_from_equirect. cbv zeta.
  unfold math.div at 1.
  destruct (Req_dec_T _ 0) as [|_]; [discriminate|]. cbn [mbind result_bind].
  destruct (np.linspace (- IZR out_w / 2) _ _) as [xs|]; [|discriminate].
  cbn [mbind result_bind].
  destruct (np.linspace (- IZR out_h / 2) _ _) as [ys|]; [|discriminate].
  cbn [mbind result_bind]. unfold np.meshgrid, cv2.remap.
  destruct (decide _) as [|_]; [discriminate|].
  destruct (decide _) as [_|]; [|discriminate]. intros [= <-].
  apply zip_grid_Forall. intros sx sy.
  now apply (sample_within pano h w c).
Qed.

Lemma perspective_keeps_range_witness :
  exists view,
    perspective_from_equirect two_row_pano 0 0 90 3 3 = Ok view
    /\ image_within 10 20 view.
Proof.
  destruct (perspective_from_equirect_ok two_row_pano 0 0 90 3 3)
    as (view & Hview & _);
    [lra|lia|lia|unfold within_remap_limit, cv2.SHRT_MAX; cbn; lia|].
  exists view. split; [exact Hview|].
  apply (perspective_keeps_range two_row_pano view 2 1 1 10 20 0 0 90 3 3).
  - split; [reflexivity|]. repeat constructor.
  - lia.
  - lia.
  - repeat constructor; lra.
  - exact Hview.
Defined.

(** *** Full turns *)

Lemma radians_turns (d : R) (k : nat) :
  math.radians (d + 360 * INR k) = math.radians d + 2 * INR k * PI.
Proof. unfold math.radians. field. Qed.

Lemma zip_grid_ext {A B C} (f g : A -> B -> C)
    (g1 : list (list A)) (g2 : list (list B)) :
  (forall a b, f a b = g a b) -> np.zip_grid f g1 g2 = np.zip_grid g g1 g2.
Proof.
  intros Hfg. unfold np.zip_grid. apply zip_with_ext; [|reflexivity..].
  intros r1 r2. now apply zip_with_ext.
Qed.

(** X24: the yaw and the pitch count modulo full turns: adding a multiple
    of 360 degrees to either gives the same result. *)
Theorem perspective_full_turns (pano : image)
    (yaw_deg pitch_deg fov_deg : R) (out_w out_h : Z) (k m : nat) :
  perspective_from_equirect pano (yaw_deg + 360 * INR k)
    (pitch_deg + 360 * INR m) fov_deg out_w out_h
  = perspective_from_equirect pano yaw_deg pitch_deg fov_deg out_w out_h.
Proof.
  assert (Hc : forall h_in w_in f xg yg,
    pano_coords h_in w_in (math.radians (yaw_deg + 360 * INR k))
      (math.radians (pitch_deg + 360 * INR m)) f xg yg
    = pano_coords h_in w_in (math.radians yaw_deg)
        (math.radians pitch_deg) f xg yg).
  { intros. unfold pano_coords, ray_angles. cbv zeta.
    rewrite !radians_turns, !sin_period, !cos_period. reflexivity. }
  unfold perspective_from_equirect. cbv zeta.
  destruct (math.div _ _) as [f|]; [|reflexivity]. cbn [mbind result_bind].
  destruct (np.linspace (- IZR out_w / 2) _ _) as [xs|]; [|reflexivity].
  cbn [mbind result_bind].
  destruct (np.linspace (- IZR out_h / 2) _ _) as [ys|]; [|reflexivity].
  cbn [mbind result_bind]. destruct (np.meshgrid xs ys) as [x_grid y_grid].
  f_equal; apply zip_grid_ext; intros; now rewrite Hc.
Qed.
